(** * Dimensional analysis of [units.hpp] and [Vector3D.hpp]

    A shallow embedding of the quantity engine ([Quantity], the derivation
    aliases [QMultiplication], [QDivision], [QPower], [QRoot], the operators
    and the helpers of namespace [units]) and of the quantity-parameterised
    [Vector3D].

    - A [std::ratio<N, D>] is the pair of its template arguments; its members
      [num] and [den] are the reduced numerator and denominator, as the C++
      standard defines them ([ratio.ratio]).  Exponents are unbounded
      integers: where [intmax_t] would overflow the C++ program is ill-formed,
      it never computes a wrong exponent.
    - A [double] is a binary64 number: Rocq's primitive [float], whose [+],
      [-], [*], [/], [sqrt], [abs] and comparisons are the IEEE 754 ones the
      compiled code executes.
    - The dimension vector of a quantity is a type index, as in the template:
      [Quantity d] holds one [double].  What the compiler rejects
      ([static_assert], a return type that does not match, a call of a member
      the class does not declare) is [None]. *)

From Stdlib Require Import ZArith Znumtheory QArith Qabs Qpower Psatz Bool List.
From Stdlib Require Import String.
From Stdlib Require Import Floats.
Import ListNotations.

Local Open Scope Z_scope.

(** ** [<ratio>]: compile-time rationals *)

Module Ratio.

(** [std::ratio<N, D>], by its template arguments. *)
Record ratio : Set := mk { N : Z; D : Z }.

(** [std::ratio<N, D>::num = sign(N) * sign(D) * abs(N) / gcd(N, D)]. *)
Definition num (r : ratio) : Z :=
  Z.sgn (N r) * Z.sgn (D r) * Z.abs (N r) / Z.gcd (N r) (D r).

(** [std::ratio<N, D>::den = abs(D) / gcd(N, D)]. *)
Definition den (r : ratio) : Z :=
  Z.abs (D r) / Z.gcd (N r) (D r).

(** [std::ratio<N, D>::type], the reduced ratio [ratio<num, den>]. *)
Definition type (r : ratio) : ratio := mk (num r) (den r).

(** [std::ratio<R>] with the default denominator 1. *)
Definition of_int (n : Z) : ratio := mk n 1.

(** The arithmetic aliases denote [ratio<X, Y>::type] for the [X], [Y] of
    the standard's table ([ratio.arithmetic]). *)
Definition ratio_add (r1 r2 : ratio) : ratio :=
  type (mk (num r1 * den r2 + num r2 * den r1) (den r1 * den r2)).

Definition ratio_subtract (r1 r2 : ratio) : ratio :=
  type (mk (num r1 * den r2 - num r2 * den r1) (den r1 * den r2)).

Definition ratio_multiply (r1 r2 : ratio) : ratio :=
  type (mk (num r1 * num r2) (den r1 * den r2)).

Definition ratio_divide (r1 r2 : ratio) : ratio :=
  type (mk (num r1 * den r2) (den r1 * num r2)).

(** [std::ratio_equal<R1, R2>::value]. *)
Definition ratio_equal (r1 r2 : ratio) : bool :=
  (num r1 =? num r2) && (den r1 =? den r2).

(** A [ratio] with a zero denominator is ill-formed. *)
Definition wf (r : ratio) : Prop := D r <> 0.

(** The rational a ratio stands for. *)
Definition to_Q (r : ratio) : Q := (inject_Z (N r) / inject_Z (D r))%Q.

End Ratio.

Import Ratio.

(** ** Dimension vectors: the template parameters [DIMS] *)

(** The eight [typename]s of [TYPENAMES], each a [std::ratio]. *)
Record Dims : Set := mkDims {
  mass : ratio;
  length : ratio;
  time : ratio;
  current : ratio;
  angle : ratio;
  temperature : ratio;
  luminosity : ratio;
  moles : ratio
}.

Inductive slot : Set :=
| s_mass | s_length | s_time | s_current
| s_angle | s_temperature | s_luminosity | s_moles.

Definition all_slots : list slot :=
  [s_mass; s_length; s_time; s_current; s_angle; s_temperature; s_luminosity; s_moles].

Definition exponent (d : Dims) (s : slot) : ratio :=
  match s with
  | s_mass => mass d
  | s_length => length d
  | s_time => time d
  | s_current => current d
  | s_angle => angle d
  | s_temperature => temperature d
  | s_luminosity => luminosity d
  | s_moles => moles d
  end.

(** Every exponent is a well-formed [std::ratio]. *)
Definition wf_dims (d : Dims) : Prop := forall s, wf (exponent d s).

(** Two specialisations [Quantity<...>] are the same type when their
    template arguments are the same types: the same [N] and [D] in every
    slot ([ratio<2, 4>] and [ratio<1, 2>] are different types). *)
Definition same_ratio (r1 r2 : ratio) : bool :=
  (N r1 =? N r2) && (D r1 =? D r2).

Definition same_type (d1 d2 : Dims) : bool :=
  forallb (fun s => same_ratio (exponent d1 s) (exponent d2 s)) all_slots.

(** The exponents are in lowest terms with a positive denominator, as every
    [ratio<m>] of the unit catalogue and every result of ratio arithmetic. *)
Definition reduced (r : ratio) : bool :=
  (0 <? D r) && (Z.gcd (N r) (D r) =? 1).

Definition reduced_dims (d : Dims) : bool :=
  forallb (fun s => reduced (exponent d s)) all_slots.

Definition QMultiplication (Q1 Q2 : Dims) : Dims :=
  mkDims
    (ratio_add (mass Q1) (mass Q2)) (ratio_add (length Q1) (length Q2))
    (ratio_add (time Q1) (time Q2)) (ratio_add (current Q1) (current Q2))
    (ratio_add (angle Q1) (angle Q2))
    (ratio_add (temperature Q1) (temperature Q2))
    (ratio_add (luminosity Q1) (luminosity Q2))
    (ratio_add (moles Q1) (moles Q2)).

Definition QDivision (Q1 Q2 : Dims) : Dims :=
  mkDims
    (ratio_subtract (mass Q1) (mass Q2))
    (ratio_subtract (length Q1) (length Q2))
    (ratio_subtract (time Q1) (time Q2))
    (ratio_subtract (current Q1) (current Q2))
    (ratio_subtract (angle Q1) (angle Q2))
    (ratio_subtract (temperature Q1) (temperature Q2))
    (ratio_subtract (luminosity Q1) (luminosity Q2))
    (ratio_subtract (moles Q1) (moles Q2)).

Definition QPower (Q : Dims) (factor : ratio) : Dims :=
  mkDims
    (ratio_multiply (mass Q) factor) (ratio_multiply (length Q) factor)
    (ratio_multiply (time Q) factor) (ratio_multiply (current Q) factor)
    (ratio_multiply (angle Q) factor) (ratio_multiply (temperature Q) factor)
    (ratio_multiply (luminosity Q) factor) (ratio_multiply (moles Q) factor).

Definition QRoot (Q : Dims) (quotient : ratio) : Dims :=
  mkDims
    (ratio_divide (mass Q) quotient) (ratio_divide (length Q) quotient)
    (ratio_divide (time Q) quotient) (ratio_divide (current Q) quotient)
    (ratio_divide (angle Q) quotient) (ratio_divide (temperature Q) quotient)
    (ratio_divide (luminosity Q) quotient) (ratio_divide (moles Q) quotient).

(** [NEW_QUANTITY(Name, suffix, m, l, t, i, a, o, j, n)]: the alias
    [Quantity<ratio<m>, ratio<l>, ...>]. *)
Definition NEW_QUANTITY (m l t i a o j n : Z) : Dims :=
  mkDims (of_int m) (of_int l) (of_int t) (of_int i)
         (of_int a) (of_int o) (of_int j) (of_int n).

Definition Number : Dims := NEW_QUANTITY 0 0 0 0 0 0 0 0.
Definition Mass : Dims := NEW_QUANTITY 1 0 0 0 0 0 0 0.
Definition Time : Dims := NEW_QUANTITY 0 0 1 0 0 0 0 0.
Definition Length : Dims := NEW_QUANTITY 0 1 0 0 0 0 0 0.
Definition Area : Dims := NEW_QUANTITY 0 2 0 0 0 0 0 0.
Definition LinearVelocity : Dims := NEW_QUANTITY 0 1 (-1) 0 0 0 0 0.
Definition Force : Dims := NEW_QUANTITY 1 1 (-2) 0 0 0 0 0.

(** Modelled from the spec: [units/Angle.hpp] is not among the sources.  The
    spec's angle quantity has exponent one in the angle slot and zero
    elsewhere. *)
Definition Angle : Dims := NEW_QUANTITY 0 0 0 0 1 0 0 0.

(** An angular velocity, as [toLinear] expects it: angle per time. *)
Definition AngularVelocity : Dims := NEW_QUANTITY 0 0 (-1) 0 1 0 0 0.

(** The other aliases the derived units of the catalogue are declared with. *)
Definition LinearAcceleration : Dims := NEW_QUANTITY 0 1 (-2) 0 0 0 0 0.
Definition LinearJerk : Dims := NEW_QUANTITY 0 1 (-3) 0 0 0 0 0.

(** ** [class Quantity] *)

Local Open Scope float_scope.

(** The only data member is [double value]; the dimension vector is the
    type's index. *)
Record Quantity (d : Dims) : Set := mkQuantity { value : float }.

Arguments mkQuantity d value : clear implicits.
Arguments value {d} q.

(** [explicit constexpr Quantity() : value(0) {}] *)
Definition Quantity_default (d : Dims) : Quantity d := mkQuantity d 0.

(** [constexpr double val() const] *)
Definition val {d} (q : Quantity d) : float := value q.

(** The dimension vector of a quantity: its type's template arguments. *)
Definition dims_of {d} (q : Quantity d) : Dims := d.

(** [constexpr double convert(Quantity<DIMS> quantity)] *)
Definition convert {d} (this quantity : Quantity d) : float :=
  value this / value quantity.

(** The compound assignments return [void] and act on [*this]: each is the
    receiver after the call. *)

(** [operator+=(Quantity<DIMS> other) { value += other.value; }] *)
Definition op_add_assign {d} (this other : Quantity d) : Quantity d :=
  mkQuantity d (value this + value other).

(** [operator-=(Quantity<DIMS> other) { value == other.value; }]: the body is
    a comparison whose result is discarded; nothing is stored. *)
Definition op_sub_assign {d} (this other : Quantity d) : Quantity d :=
  let _ := (value this =? value other) in this.

(** [operator*=(double multiple) { value *= multiple; }] *)
Definition op_mul_assign {d} (this : Quantity d) (multiple : float) : Quantity d :=
  mkQuantity d (value this * multiple).

(** [operator/=(double dividend) { value /= dividend; }] *)
Definition op_div_assign {d} (this : Quantity d) (dividend : float) : Quantity d :=
  mkQuantity d (value this / dividend).

(** The condition of the [static_assert] in [operator=(const double&)]. *)
Definition is_number (d : Dims) : bool :=
  ratio_equal (mass d) (of_int 0) && ratio_equal (length d) (of_int 0) &&
  ratio_equal (time d) (of_int 0) && ratio_equal (current d) (of_int 0) &&
  ratio_equal (angle d) (of_int 0) &&
  ratio_equal (temperature d) (of_int 0) &&
  ratio_equal (luminosity d) (of_int 0) && ratio_equal (moles d) (of_int 0).

(** [operator=(const double& rhs)]: [None] when the [static_assert] fails,
    otherwise the receiver after [value = rhs]. *)
Definition op_assign {d} (this : Quantity d) (rhs : float) : option (Quantity d) :=
  if is_number d then Some (mkQuantity d rhs) else None.

(** [unit_cast<Q1>(Q2 quantity) { return Q1(quantity.val()); }] *)
Definition unit_cast (Q1 : Dims) {Q2} (quantity : Quantity Q2) : Quantity Q1 :=
  mkQuantity Q1 (val quantity).

(** [Quantity(Quantity<DIMS> const& other)]: a quantity initialises one of
    the same specialisation only, the constructor from [double] being
    [explicit]; any other initialisation is rejected. *)
Definition copy_as {S} (T : Dims) (q : Quantity S) : option (Quantity T) :=
  if same_type S T then Some (mkQuantity T (value q)) else None.

Definition op_add {Q} (lhs rhs : Quantity Q) : Quantity Q :=
  mkQuantity Q (val lhs + val rhs).

Definition op_sub {Q} (lhs rhs : Quantity Q) : Quantity Q :=
  mkQuantity Q (val lhs - val rhs).

(** [operator*(Q quantity, double multiple)] *)
Definition op_scale {Q} (quantity : Quantity Q) (multiple : float) : Quantity Q :=
  mkQuantity Q (val quantity * multiple).


(** [operator/(Q quantity, double divisor)] *)
Definition op_div_scalar {Q} (quantity : Quantity Q) (divisor : float) : Quantity Q :=
  mkQuantity Q (val quantity / divisor).

(** [operator*(Q1 lhs, Q2 rhs)] with [Q3 = QMultiplication<Q1, Q2>] *)
Definition op_mul {Q1 Q2} (lhs : Quantity Q1) (rhs : Quantity Q2)
  : Quantity (QMultiplication Q1 Q2) :=
  mkQuantity _ (val lhs * val rhs).

(** [operator/(Q1 lhs, Q2 rhs)] with [Q3 = QDivision<Q1, Q2>] *)
Definition op_div {Q1 Q2} (lhs : Quantity Q1) (rhs : Quantity Q2)
  : Quantity (QDivision Q1 Q2) :=
  mkQuantity _ (val lhs / val rhs).

Definition op_eq {Q} (lhs rhs : Quantity Q) : bool := val lhs =? val rhs.
Definition op_lt {Q} (lhs rhs : Quantity Q) : bool := val lhs <? val rhs.
Definition op_le {Q} (lhs rhs : Quantity Q) : bool := val lhs <=? val rhs.
Definition op_gt {Q} (lhs rhs : Quantity Q) : bool := val rhs <? val lhs.

(** [operator!=] and [operator>=]: on [double]s [a != b] is the negation of
    [a == b], and [a >= b] is [b <= a]. *)
Definition op_ne {Q} (lhs rhs : Quantity Q) : bool := negb (val lhs =? val rhs).
Definition op_ge {Q} (lhs rhs : Quantity Q) : bool := val rhs <=? val lhs.

(** The conversion of an [int] to [double]; exact, an [int] having at most
    32 bits. *)
Definition double_of_int (z : Z) : float :=
  SF2Prim (binary_normalize prec emax z 0 false).

(** ** [<cmath>]

    [std::pow], [std::cos] and [std::acos] belong to the C library, not to
    this repository, and IEEE 754 does not fix their results: they are an
    interface the code is compiled against. *)
Class cmath : Set := {
  std_pow : float -> float -> float;
  std_cos : float -> float;
  std_acos : float -> float
}.

(** ** [namespace units] *)

Module units.

(** [abs(const Q& lhs) { return Q(std::abs(lhs.val())); }] *)
Definition abs {Q} (lhs : Quantity Q) : Quantity Q :=
  mkQuantity Q (PrimFloat.abs (val lhs)).

Definition max {Q} (lhs rhs : Quantity Q) : Quantity Q :=
  if op_gt lhs rhs then lhs else rhs.

Definition min {Q} (lhs rhs : Quantity Q) : Quantity Q :=
  if op_lt lhs rhs then lhs else rhs.

(** [pow<R>(const Q& lhs) { return S(std::pow(lhs.val(), R)); }] with
    [S = QPower<Q, std::ratio<R>>]; the [int] is converted to [double]. *)
Definition pow `{cmath} (R : Z) {Q} (lhs : Quantity Q)
  : Quantity (QPower Q (of_int R)) :=
  mkQuantity _ (std_pow (val lhs) (double_of_int R)).

(** [square(const Q& rhs) { return S(std::sqrt(rhs.val())); }] with
    [S = QPower<Q, std::ratio<2>>] *)
Definition square {Q} (rhs : Quantity Q) : Quantity (QPower Q (of_int 2)) :=
  mkQuantity _ (PrimFloat.sqrt (val rhs)).

(** [cube(const Q& rhs) { return S(std::sqrt(rhs.val())); }] with
    [S = QPower<Q, std::ratio<3>>] *)
Definition cube {Q} (rhs : Quantity Q) : Quantity (QPower Q (of_int 3)) :=
  mkQuantity _ (PrimFloat.sqrt (val rhs)).

(** [root<R>(const Q& lhs) { return S(std::pow(lhs.val(), 1.0 / R)); }] with
    [S = QRoot<Q, std::ratio<R>>] *)
Definition root `{cmath} (R : Z) {Q} (lhs : Quantity Q)
  : Quantity (QRoot Q (of_int R)) :=
  mkQuantity _ (std_pow (val lhs) (1 / double_of_int R)).

(** [sqrt(const Q& rhs) { return S(std::sqrt(rhs.val())); }] with
    [S = QRoot<Q, std::ratio<2>>] *)
Definition sqrt {Q} (rhs : Quantity Q) : Quantity (QRoot Q (of_int 2)) :=
  mkQuantity _ (PrimFloat.sqrt (val rhs)).

(** [cbrt(const Q& rhs) { return S(std::sqrt(rhs.val())); }] with
    [S = QRoot<Q, std::ratio<3>>] *)
Definition cbrt {Q} (rhs : Quantity Q) : Quantity (QRoot Q (of_int 3)) :=
  mkQuantity _ (PrimFloat.sqrt (val rhs)).

(** [sgn(const Q& lhs) { return lhs.val() < 0 ? -1 : 1; }] *)
Definition sgn {Q} (lhs : Quantity Q) : Z :=
  if val lhs <? 0 then (-1)%Z else 1%Z.

(** [clamp(const Q& lhs, const Q& lo, Q& hi)
      { return Q(std::clamp(lhs.val(), lo.val(), hi.val())); }];
    [std::clamp(v, lo, hi)] is [(v < lo) ? lo : (hi < v) ? hi : v]. *)
Definition clamp {Q} (lhs lo hi : Quantity Q) : Quantity Q :=
  mkQuantity Q
    (if val lhs <? val lo then val lo
     else if val hi <? val lhs then val hi else val lhs).

(** Modelled from the spec: [units/Angle.hpp] is not among the sources;
    [cos] takes an angle to the number [std::cos] gives for its value. *)
Definition cos `{cmath} (rhs : Quantity Angle) : Quantity Number :=
  mkQuantity Number (std_cos (val rhs)).

(** Modelled from the spec: [units/Angle.hpp] is not among the sources;
    [acos] takes any quantity (here the dimensionless component/magnitude)
    to the angle [std::acos] gives for its value. *)
Definition acos `{cmath} {Q} (rhs : Quantity Q) : Quantity Angle :=
  mkQuantity Angle (std_acos (val rhs)).

End units.

(** ** [toLinear] and [toAngular] *)

(** [Quantity<Q::mass, Q::angle, Q::time, Q::current, Q::length, ...>]: the
    return type of both conversions. *)
Definition swap_length_angle (Q : Dims) : Dims :=
  mkDims (mass Q) (angle Q) (time Q) (current Q)
         (length Q) (temperature Q) (luminosity Q) (moles Q).

Definition toLinear (Q : Dims) (angular : Quantity Q) (diameter : Quantity Length)
  : Quantity (swap_length_angle Q) :=
  unit_cast (swap_length_angle Q) (op_mul angular (op_div_scalar diameter 2)).

Definition toAngular (Q : Dims) (linear : Quantity Q) (diameter : Quantity Length)
  : Quantity (swap_length_angle Q) :=
  unit_cast (swap_length_angle Q) (op_div linear (op_div_scalar diameter 2)).

(** ** [class Vector3D] *)

Record Vector3D (T : Dims) : Set := mkVector3D {
  x : Quantity T;
  y : Quantity T;
  z : Quantity T
}.

Arguments mkVector3D {T} x y z.
Arguments x {T} v.
Arguments y {T} v.
Arguments z {T} v.

(** Modelled from the spec: [Vector2D] is declared in a header that is not
    among the sources, and the spec describes the three-component vector
    only; it is taken as its planar sibling, two components [x] and [y] and
    a constructor from two quantities. *)
Record Vector2D (T : Dims) : Set := mkVector2D {
  x2 : Quantity T;
  y2 : Quantity T
}.

Arguments mkVector2D {T} x2 y2.

(** The class named in a constructor call, and what the call yields. *)
Inductive vector_class : Set := class_Vector2D | class_Vector3D.

Inductive vector_object (T : Dims) : Set :=
| obj_Vector2D (v : Vector2D T)
| obj_Vector3D (v : Vector3D T).

Arguments obj_Vector2D {T} v.
Arguments obj_Vector3D {T} v.

(** [C<T>(args...)]: overload resolution among the constructors of [C] that
    take quantities; [None] when no constructor takes the arguments. *)
Definition construct {T} (c : vector_class) (args : list (Quantity T))
  : option (vector_object T) :=
  match c, args with
  | class_Vector2D, [a; b] => Some (obj_Vector2D (mkVector2D a b))
  | class_Vector3D, [a; b; c] => Some (obj_Vector3D (mkVector3D a b c))
  | _, _ => None
  end.

(** [return e;] in a function declared to return [Vector3D<T>]: neither
    class converts to the other. *)
Definition return_Vector3D {T} (o : vector_object T) : option (Vector3D T) :=
  match o with
  | obj_Vector3D v => Some v
  | obj_Vector2D _ => None
  end.

Definition option_bind {A B} (o : option A) (f : A -> option B) : option B :=
  match o with
  | Some a => f a
  | None => None
  end.

Notation "'do' a <- o ; k" := (option_bind o (fun a => k))
  (at level 10, a name, o at level 100, k at level 200).

(** [Vector3D(T nx, T ny, T nz)] with each argument initialised from an
    expression that may have another quantity type. *)
Definition init {T A B C} (nx : Quantity A) (ny : Quantity B) (nz : Quantity C)
  : option (Vector3D T) :=
  do a <- copy_as T nx;
  do b <- copy_as T ny;
  do c <- copy_as T nz;
  Some (mkVector3D a b c).

(** The names [class Quantity] declares, its constructors apart: the data
    member, the eight typedefs and the member functions.  [abs] is not one
    of them, it is a free function of namespace [units]. *)
Definition Quantity_members : list string :=
  ["value"; "mass"; "length"; "time"; "current"; "angle"; "temperature";
   "luminosity"; "moles"; "val"; "convert"; "operator+="; "operator-=";
   "operator*="; "operator/="; "operator="]%string.

(** [q.name(...)] is accepted only when [name] is a member of [Quantity]. *)
Definition has_member (name : string) : bool :=
  existsb (String.eqb name) Quantity_members.

(** [fromPolar(const Vector3D<Angle>& t, T m)]:
    [m = m.abs(); return Vector3D<T>(m * cos(t.x), m * cos(t.y), m * cos(t.z));]
    The first statement calls a member [abs] of [m], a [Quantity]: the
    compiler rejects it.  Were there such a member, it would be the absolute
    value the spec names. *)
Definition fromPolar `{cmath} {T} (t : Vector3D Angle) (m : Quantity T)
  : option (Vector3D T) :=
  if has_member "abs" then
    let m := units.abs m in
    init (op_mul m (units.cos (x t)))
         (op_mul m (units.cos (y t)))
         (op_mul m (units.cos (z t)))
  else None.

(** [operator+(const Vector3D<T>& other)] *)
Definition Vector3D_add {T} (this other : Vector3D T) : Vector3D T :=
  mkVector3D (op_add (x this) (x other)) (op_add (y this) (y other))
             (op_add (z this) (z other)).

(** [operator-(const Vector3D<T>& other)] *)
Definition Vector3D_sub {T} (this other : Vector3D T) : Vector3D T :=
  mkVector3D (op_sub (x this) (x other)) (op_sub (y this) (y other))
             (op_sub (z this) (z other)).

(** [magnitude() const { return sqrt(square(x) + square(y) + square(z)); }]
    returned as a [T]. *)
Definition magnitude {T} (this : Vector3D T) : option (Quantity T) :=
  copy_as T
    (units.sqrt
       (op_add (op_add (units.square (x this)) (units.square (y this)))
               (units.square (z this)))).

(** [theta() const]:
    [const T mag = magnitude();
     return Vector3D<Angle>(acos(x / mag), acos(y / mag), acos(z / mag));] *)
Definition theta `{cmath} {T} (this : Vector3D T) : option (Vector3D Angle) :=
  do mag <- magnitude this;
  init (units.acos (op_div (x this) mag))
       (units.acos (op_div (y this) mag))
       (units.acos (op_div (z this) mag)).

(** [vectorTo(const Vector3D<T>& other) const]:
    [return Vector2D<T>(other.x - x, other.y - y, other.z - z);] *)
Definition vectorTo {T} (this other : Vector3D T) : option (Vector3D T) :=
  do o <- construct class_Vector2D
            [op_sub (x other) (x this);
             op_sub (y other) (y this);
             op_sub (z other) (z this)];
  return_Vector3D o.

(** [distanceTo(const Vector3D<T>& other) const { return vectorTo(other).magnitude(); }] *)
Definition distanceTo {T} (this other : Vector3D T) : option (Quantity T) :=
  do v <- vectorTo this other; magnitude v.

(** ** More of [class Vector3D] *)

(** [Vector3D() : x(0.0), y(0.0), z(0.0) {}] *)
Definition Vector3D_default (T : Dims) : Vector3D T :=
  mkVector3D (mkQuantity T 0) (mkQuantity T 0) (mkQuantity T 0).

(** [unitVector(const Vector3D<Angle>& t) { return fromPolar(t, (T)1.0); }]:
    rejected with [fromPolar]. *)
Definition unitVector `{cmath} {T} (t : Vector3D Angle) : option (Vector3D T) :=
  fromPolar t (mkQuantity T 1).

(** [operator*(double factor)] and [operator/(double factor)] *)
Definition Vector3D_scale {T} (this : Vector3D T) (factor : float) : Vector3D T :=
  mkVector3D (op_scale (x this) factor) (op_scale (y this) factor)
             (op_scale (z this) factor).

Definition Vector3D_div {T} (this : Vector3D T) (factor : float) : Vector3D T :=
  mkVector3D (op_div_scalar (x this) factor) (op_div_scalar (y this) factor)
             (op_div_scalar (z this) factor).

(** The compound assignments apply the component's own compound assignment
    to [x], [y] and [z] and return [*this]. *)
Definition Vector3D_add_assign {T} (this other : Vector3D T) : Vector3D T :=
  mkVector3D (op_add_assign (x this) (x other))
             (op_add_assign (y this) (y other))
             (op_add_assign (z this) (z other)).

Definition Vector3D_sub_assign {T} (this other : Vector3D T) : Vector3D T :=
  mkVector3D (op_sub_assign (x this) (x other))
             (op_sub_assign (y this) (y other))
             (op_sub_assign (z this) (z other)).

Definition Vector3D_mul_assign {T} (this : Vector3D T) (factor : float) : Vector3D T :=
  mkVector3D (op_mul_assign (x this) factor) (op_mul_assign (y this) factor)
             (op_mul_assign (z this) factor).

Definition Vector3D_div_assign {T} (this : Vector3D T) (factor : float) : Vector3D T :=
  mkVector3D (op_div_assign (x this) factor) (op_div_assign (y this) factor)
             (op_div_assign (z this) factor).

(** Modelled from the spec: the alias [Multiplied] that [dot] and [cross]
    name is not declared by [units.hpp]; the spec gives their result the
    derived product dimension of [T] and [Q], which is [QMultiplication]. *)
Definition Multiplied (T Q : Dims) : Dims := QMultiplication T Q.

(** [dot(const Vector3D<Q>& other) const
      { return (x * other.x) + (y * other.y) + (z * other.z); }] *)
Definition dot {T Q} (this : Vector3D T) (other : Vector3D Q)
  : Quantity (Multiplied T Q) :=
  op_add (op_add (op_mul (x this) (x other)) (op_mul (y this) (y other)))
         (op_mul (z this) (z other)).

(** ** The unit catalogue's macros *)

(** [NEW_QUANTITY_VALUE(Name, suffix, val)]: [constexpr Name suffix = val;]
    is accepted when [val] is a [Name]. *)
Definition NEW_QUANTITY_VALUE (Name : Dims) {S} (val : Quantity S)
  : option (Quantity Name) :=
  copy_as Name val.



(** [to_##suffix(Name quantity) { return quantity.convert(val); }] *)
Definition to_suffix {Name} (suffix quantity : Quantity Name) : float :=
  convert quantity suffix.

(** ** Yardsticks the properties are stated with *)

(** The relative closeness test behind "within floating tolerance": [x] is
    within [tol * |a|] of [a]. *)
Definition close_to (tol a x : float) : bool :=
  PrimFloat.abs (x - a) <=? tol * PrimFloat.abs a.

(** The Euclidean norm of the three component values, in [double]
    arithmetic. *)
Definition euclidean_norm {T} (v : Vector3D T) : float :=
  PrimFloat.sqrt
    (val (x v) * val (x v) + val (y v) * val (y v) + val (z v) * val (z v)).

(** The two calls of [std::pow] the negative example makes, with the results
    an IEEE 754 [pow] returns for them (both are exact). *)
Definition pow_exact_squares (M : cmath) : Prop :=
  std_pow (-2) 2 = 4 /\ std_pow 4 0.5 = 2.

(** A [<cmath>] to evaluate with: squares and square roots, which binary64
    rounds correctly, and NaN elsewhere. *)
Definition squares_only : cmath := {|
  std_pow x y :=
    if y =? 2 then x * x else if y =? 0.5 then PrimFloat.sqrt x else nan;
  std_cos _ := nan;
  std_acos _ := nan
|}.

(** ** binary64 numbers as rationals *)

Module Binary64.

Local Close Scope float_scope.
Local Open Scope Z_scope.

(** [P / D] lies in [[m, m+1)] at the place [l] says: on [m], below, at or
    above the midpoint. *)
Definition inbetween (m : Z) (l : location) (P D : Z) : Prop :=
  match l with
  | loc_Exact => P = m * D
  | loc_Inexact c =>
    m * D < P < (m + 1) * D /\
    match c with
    | Lt => 2 * P < (2 * m + 1) * D
    | Eq => 2 * P = (2 * m + 1) * D
    | Gt => (2 * m + 1) * D < 2 * P
    end
  end.

(** The rational a finite binary64 number stands for; 0 for the others. *)
Definition SF2Q (x : spec_float) : Q :=
  match x with
  | S754_finite s m e =>
    ((if s then -1 else 1) * (inject_Z (Z.pos m) * 2 ^ e))%Q
  | _ => 0%Q
  end.

Definition F2Q (x : float) : Q := SF2Q (Prim2SF x).

(** A normal number: finite, nonzero, with all [prec] bits of precision. *)
Definition is_normal (x : float) : bool :=
  match classify x with
  | PNormal | NNormal => true
  | _ => false
  end.

End Binary64.

Import Binary64.

(** [std::pow] at the two calls of [root<N>(pow<N>(q))] on the value [v],
    accurate to the relative error [eps]: both results are finite, the power
    is within [eps] of the exact [v^N], and the root is a non-negative
    number whose [N]-th power is within [eps] of the power. *)
Definition pow_accurate (M : cmath) (eps : Q) (N : Z) (v : float) : Prop :=
  let w := std_pow v (double_of_int N) in
  let r := std_pow w (1 / double_of_int N) in
  is_finite w = true /\ is_finite r = true /\
  (Qabs (F2Q w - F2Q v ^ N) <= eps * F2Q v ^ N)%Q /\
  (Qabs (F2Q r ^ N - F2Q w) <= eps * F2Q w)%Q /\
  (0 <= F2Q r)%Q.

(** * Properties *)

Local Close Scope float_scope.
Local Open Scope Z_scope.

(** ** Sanity checks of the model *)

Example ratio_2_4 : (num (mk 2 4), den (mk 2 4)) = (1, 2)%Z.
Proof. reflexivity. Qed.

Example ratio_3_m6 : (num (mk 3 (-6)), den (mk 3 (-6))) = (-1, 2)%Z.
Proof. reflexivity. Qed.

Example ratio_0_m5 : type (mk 0 (-5)) = mk 0 1.
Proof. reflexivity. Qed.

Example ratio_add_half_third : ratio_add (mk 1 2) (mk 1 3) = mk 5 6.
Proof. reflexivity. Qed.

Example double_of_int_m3 : double_of_int (-3) = (-3)%float.
Proof. reflexivity. Qed.

(** ** The rationals behind [std::ratio] *)

Section RatioReduction.


Variable r : ratio.
Hypothesis Hwf : wf r.

Lemma gcd_pos : 0 < Z.gcd (N r) (D r).
Proof.
  pose proof (Z.gcd_nonneg (N r) (D r)) as Hnn.
  destruct (Z.eq_dec (Z.gcd (N r) (D r)) 0) as [E|E]; [|lia].
  apply Z.gcd_eq_0_r in E. contradiction.
Qed.

Lemma num_eq : num r = Z.sgn (D r) * (N r / Z.gcd (N r) (D r)).
Proof.
  unfold num.
  replace (Z.sgn (N r) * Z.sgn (D r) * Z.abs (N r)) with (Z.sgn (D r) * N r)
    by (pose proof (Z.abs_sgn (N r)); nia).
  apply Z.divide_div_mul_exact.
  - pose proof gcd_pos; lia.
  - apply Z.gcd_divide_l.
Qed.

Lemma den_eq : den r = Z.sgn (D r) * (D r / Z.gcd (N r) (D r)).
Proof.
  unfold den. rewrite <- (Z.sgn_abs (D r)).
  rewrite (Z.mul_comm (D r)).
  apply Z.divide_div_mul_exact.
  - pose proof gcd_pos; lia.
  - apply Z.gcd_divide_r.
Qed.

Lemma N_split : N r = Z.gcd (N r) (D r) * (N r / Z.gcd (N r) (D r)).
Proof.
  pose proof gcd_pos.
  apply Z.div_exact; [lia|].
  apply Z.mod_divide; [lia | apply Z.gcd_divide_l].
Qed.

Lemma D_split : D r = Z.gcd (N r) (D r) * (D r / Z.gcd (N r) (D r)).
Proof.
  pose proof gcd_pos.
  apply Z.div_exact; [lia|].
  apply Z.mod_divide; [lia | apply Z.gcd_divide_r].
Qed.

Lemma den_pos : 0 < den r.
Proof.
  rewrite den_eq. pose proof gcd_pos. pose proof D_split.
  unfold wf in Hwf.
  destruct (Z.sgn_spec (D r)) as [[? ->]|[[? ->]|[? ->]]]; nia.
Qed.

Lemma num_den_cross : num r * D r = N r * den r.
Proof.
  rewrite num_eq, den_eq.
  pose proof N_split. pose proof D_split. nia.
Qed.

Lemma num_den_coprime : Z.gcd (num r) (den r) = 1.
Proof.
  rewrite num_eq, den_eq.
  pose proof gcd_pos as Hg.
  assert (Hc : Z.gcd (N r / Z.gcd (N r) (D r)) (D r / Z.gcd (N r) (D r)) = 1)
    by (apply Z.gcd_div_gcd; [lia | reflexivity]).
  unfold wf in Hwf.
  destruct (Z.sgn_spec (D r)) as [[? ->]|[[? ->]|[? ->]]]; try lia.
  - now rewrite !Z.mul_1_l.
  - replace (-1 * (N r / Z.gcd (N r) (D r))) with (- (N r / Z.gcd (N r) (D r))) by lia.
    replace (-1 * (D r / Z.gcd (N r) (D r))) with (- (D r / Z.gcd (N r) (D r))) by lia.
    now rewrite Z.gcd_opp_l, Z.gcd_opp_r.
Qed.

End RatioReduction.

Lemma Qdiv_cross (a b c d : Q) :
  ~ (b == 0)%Q -> ~ (d == 0)%Q -> (a / b == c / d <-> a * d == c * b)%Q.
Proof.
  intros Hb Hd; split; intro E.
  - setoid_replace a with (a / b * b)%Q by (field; exact Hb).
    rewrite E. field. exact Hd.
  - setoid_replace (a / b)%Q with (a * d / (b * d))%Q by (field; split; assumption).
    rewrite E. field. split; assumption.
Qed.

Lemma inject_Z_neq0 (n : Z) : n <> 0 -> ~ (inject_Z n == 0)%Q.
Proof.
  intros Hn E. apply Hn. apply inject_Z_injective. exact E.
Qed.

Lemma to_Q_cross a b :
  wf a -> wf b -> ((to_Q a == to_Q b)%Q <-> N a * D b = N b * D a).
Proof.
  intros Ha Hb. unfold to_Q.
  rewrite Qdiv_cross by (apply inject_Z_neq0; assumption).
  rewrite <- !inject_Z_mult. apply inject_Z_injective.
Qed.

Lemma wf_type r : wf r -> wf (type r).
Proof. intro H. unfold wf; simpl. pose proof (den_pos r H). lia. Qed.

Lemma to_Q_type r : wf r -> (to_Q (type r) == to_Q r)%Q.
Proof.
  intro H. apply to_Q_cross; [now apply wf_type | assumption |].
  simpl. now apply num_den_cross.
Qed.

Lemma to_Q_mk n d :
  d <> 0 -> (to_Q (type (mk n d)) == inject_Z n / inject_Z d)%Q.
Proof. intro H. now rewrite to_Q_type. Qed.

Lemma to_Q_num_den r : wf r -> (to_Q r == inject_Z (num r) / inject_Z (den r))%Q.
Proof. intro H. now rewrite <- (to_Q_type r H). Qed.

Lemma den_neq0 r : wf r -> den r <> 0.
Proof. intro H. pose proof (den_pos r H). lia. Qed.

Lemma to_Q_ratio_add a b :
  wf a -> wf b -> (to_Q (ratio_add a b) == to_Q a + to_Q b)%Q.
Proof.
  intros Ha Hb. unfold ratio_add.
  pose proof (den_neq0 a Ha). pose proof (den_neq0 b Hb).
  rewrite to_Q_mk by nia.
  rewrite (to_Q_num_den a Ha), (to_Q_num_den b Hb).
  rewrite inject_Z_plus, !inject_Z_mult.
  field. split; apply inject_Z_neq0; assumption.
Qed.

Lemma to_Q_ratio_subtract a b :
  wf a -> wf b -> (to_Q (ratio_subtract a b) == to_Q a - to_Q b)%Q.
Proof.
  intros Ha Hb. unfold ratio_subtract.
  pose proof (den_neq0 a Ha). pose proof (den_neq0 b Hb).
  rewrite to_Q_mk by nia.
  rewrite (to_Q_num_den a Ha), (to_Q_num_den b Hb).
  unfold Z.sub. rewrite inject_Z_plus, inject_Z_opp, !inject_Z_mult.
  field. split; apply inject_Z_neq0; assumption.
Qed.

Lemma to_Q_ratio_multiply a b :
  wf a -> wf b -> (to_Q (ratio_multiply a b) == to_Q a * to_Q b)%Q.
Proof.
  intros Ha Hb. unfold ratio_multiply.
  pose proof (den_neq0 a Ha). pose proof (den_neq0 b Hb).
  rewrite to_Q_mk by nia.
  rewrite (to_Q_num_den a Ha), (to_Q_num_den b Hb).
  rewrite !inject_Z_mult.
  field. split; apply inject_Z_neq0; assumption.
Qed.

Lemma num_neq0 r : wf r -> N r <> 0 -> num r <> 0.
Proof.
  intros Hwf Hn E. pose proof (num_den_cross r Hwf) as C.
  rewrite E in C. pose proof (den_pos r Hwf). nia.
Qed.

Lemma to_Q_ratio_divide a b :
  wf a -> wf b -> N b <> 0 -> (to_Q (ratio_divide a b) == to_Q a / to_Q b)%Q.
Proof.
  intros Ha Hb Hn. unfold ratio_divide.
  pose proof (den_neq0 a Ha). pose proof (den_neq0 b Hb).
  pose proof (num_neq0 b Hb Hn).
  rewrite to_Q_mk by nia.
  rewrite (to_Q_num_den a Ha), (to_Q_num_den b Hb).
  rewrite !inject_Z_mult.
  field. repeat split; apply inject_Z_neq0; assumption.
Qed.

Lemma reduced_spec r :
  reduced r = true <-> 0 < D r /\ Z.gcd (N r) (D r) = 1.
Proof.
  unfold reduced. rewrite andb_true_iff, Z.ltb_lt, Z.eqb_eq. tauto.
Qed.

Lemma reduced_wf r : reduced r = true -> wf r.
Proof. rewrite reduced_spec. unfold wf. lia. Qed.

Lemma type_reduced r : wf r -> reduced (type r) = true.
Proof.
  intro H. apply reduced_spec; simpl. split.
  - now apply den_pos.
  - now apply num_den_coprime.
Qed.

Lemma type_id r : reduced r = true -> type r = r.
Proof.
  rewrite reduced_spec. intros [Hd Hg].
  destruct r as [n d]; simpl in *. unfold type, num, den; simpl.
  rewrite Hg, !Z.div_1_r. f_equal.
  - rewrite (Z.sgn_pos d) by lia. pose proof (Z.abs_sgn n). nia.
  - lia.
Qed.

Lemma reduced_unique a b :
  reduced a = true -> reduced b = true -> (to_Q a == to_Q b)%Q -> a = b.
Proof.
  intros Ha Hb E.
  apply to_Q_cross in E; try now apply reduced_wf.
  apply reduced_spec in Ha, Hb. destruct Ha as [Da Ga], Hb as [Db Gb].
  assert (Hab : (D a | D b)).
  { apply Z.gauss with (m := N a).
    - exists (N b). lia.
    - now rewrite Z.gcd_comm. }
  assert (Hba : (D b | D a)).
  { apply Z.gauss with (m := N b).
    - exists (N a). lia.
    - now rewrite Z.gcd_comm. }
  assert (Ed : D a = D b).
  { apply Z.divide_antisym_nonneg; try lia; assumption. }
  destruct a as [na da], b as [nb db]; simpl in *. subst db.
  f_equal. nia.
Qed.

Lemma same_ratio_spec a b : same_ratio a b = true <-> a = b.
Proof.
  unfold same_ratio. rewrite andb_true_iff, !Z.eqb_eq.
  destruct a, b; simpl. split.
  - intros [-> ->]. reflexivity.
  - intro E; injection E; auto.
Qed.

Lemma ratio_equal_type a b : ratio_equal a b = true <-> type a = type b.
Proof. unfold ratio_equal, type. rewrite andb_true_iff, !Z.eqb_eq. split.
  - intros [-> ->]. reflexivity.
  - intro E; injection E; auto.
Qed.

Lemma ratio_equal_spec a b :
  wf a -> wf b -> (ratio_equal a b = true <-> (to_Q a == to_Q b)%Q).
Proof.
  intros Ha Hb. rewrite ratio_equal_type. split.
  - intro E. rewrite <- (to_Q_type a Ha), <- (to_Q_type b Hb), E. reflexivity.
  - intro E. apply reduced_unique; try now apply type_reduced.
    now rewrite !to_Q_type.
Qed.

(** ** Dimension vectors *)

Lemma exponent_QMultiplication a b s :
  exponent (QMultiplication a b) s = ratio_add (exponent a s) (exponent b s).
Proof. destruct s; reflexivity. Qed.

Lemma exponent_QDivision a b s :
  exponent (QDivision a b) s = ratio_subtract (exponent a s) (exponent b s).
Proof. destruct s; reflexivity. Qed.

Lemma exponent_QPower a f s :
  exponent (QPower a f) s = ratio_multiply (exponent a s) f.
Proof. destruct s; reflexivity. Qed.

Lemma exponent_QRoot a f s :
  exponent (QRoot a f) s = ratio_divide (exponent a s) f.
Proof. destruct s; reflexivity. Qed.

Lemma forall_slots (P : slot -> bool) :
  forallb P all_slots = true <-> forall s, P s = true.
Proof.
  rewrite forallb_forall. split; intros H s.
  - apply H. destruct s; simpl; tauto.
  - intros _. apply H.
Qed.

Lemma same_type_spec a b : same_type a b = true <-> a = b.
Proof.
  unfold same_type. rewrite forall_slots. split.
  - intro H. destruct a, b.
    pose proof (H s_mass) as H1. pose proof (H s_length) as H2.
    pose proof (H s_time) as H3. pose proof (H s_current) as H4.
    pose proof (H s_angle) as H5. pose proof (H s_temperature) as H6.
    pose proof (H s_luminosity) as H7. pose proof (H s_moles) as H8.
    simpl in *. apply same_ratio_spec in H1, H2, H3, H4, H5, H6, H7, H8.
    congruence.
  - intros -> s. now apply same_ratio_spec.
Qed.

Lemma reduced_dims_spec d :
  reduced_dims d = true <-> forall s, reduced (exponent d s) = true.
Proof. apply forall_slots. Qed.

Lemma reduced_dims_wf d : reduced_dims d = true -> wf_dims d.
Proof.
  rewrite reduced_dims_spec. intros H s. apply reduced_wf, H.
Qed.

Lemma dims_ext a b : (forall s, exponent a s = exponent b s) -> a = b.
Proof.
  intro H. destruct a, b.
  pose proof (H s_mass). pose proof (H s_length). pose proof (H s_time).
  pose proof (H s_current). pose proof (H s_angle). pose proof (H s_temperature).
  pose proof (H s_luminosity). pose proof (H s_moles).
  simpl in *. congruence.
Qed.

Lemma wf_of_int n : wf (of_int n).
Proof. unfold wf; simpl; lia. Qed.

Lemma to_Q_of_int n : (to_Q (of_int n) == inject_Z n)%Q.
Proof. unfold to_Q; simpl. field. Qed.

Lemma wf_ratio_multiply a b : wf a -> wf b -> wf (ratio_multiply a b).
Proof.
  intros Ha Hb. apply wf_type. unfold wf; simpl.
  pose proof (den_pos a Ha). pose proof (den_pos b Hb). nia.
Qed.

(** Multiplying every exponent by [N] and dividing it by [N] again gives
    back the rational it was. *)
Lemma to_Q_root_power r n :
  wf r -> n <> 0 ->
  (to_Q (ratio_divide (ratio_multiply r (of_int n)) (of_int n)) == to_Q r)%Q.
Proof.
  intros Hr Hn.
  rewrite to_Q_ratio_divide;
    [ | apply wf_ratio_multiply; [assumption | apply wf_of_int]
      | apply wf_of_int | exact Hn ].
  rewrite to_Q_ratio_multiply by (assumption || apply wf_of_int).
  rewrite to_Q_of_int. field. now apply inject_Z_neq0.
Qed.

Lemma wf_ratio_divide a b : wf a -> wf b -> N b <> 0 -> wf (ratio_divide a b).
Proof.
  intros Ha Hb Hn. apply wf_type. unfold wf; simpl.
  pose proof (den_pos a Ha). pose proof (num_neq0 b Hb Hn). nia.
Qed.

(** On reduced exponents it gives back the very same [ratio] type. *)
Lemma root_power_reduced r n :
  reduced r = true -> n <> 0 ->
  ratio_divide (ratio_multiply r (of_int n)) (of_int n) = r.
Proof.
  intros Hr Hn. pose proof (reduced_wf r Hr) as Hwf.
  apply reduced_unique; [ | assumption | now apply to_Q_root_power ].
  apply type_reduced. unfold wf; simpl.
  pose proof (den_pos _ (wf_ratio_multiply r (of_int n) Hwf (wf_of_int n))).
  pose proof (num_neq0 (of_int n) (wf_of_int n) Hn). nia.
Qed.

Lemma QRoot_QPower_reduced T n :
  reduced_dims T = true -> n <> 0 ->
  QRoot (QPower T (of_int n)) (of_int n) = T.
Proof.
  intros HT Hn. apply dims_ext. intro s.
  rewrite exponent_QRoot, exponent_QPower.
  apply root_power_reduced; [ | exact Hn ].
  now apply reduced_dims_spec.
Qed.

Lemma copy_as_same {T} (q : Quantity T) : copy_as T q = Some q.
Proof.
  unfold copy_as. rewrite (proj2 (same_type_spec T T) eq_refl).
  now destruct q.
Qed.

Lemma copy_as_eq {S} T (q : Quantity S) :
  S = T -> copy_as T q = Some (mkQuantity T (value q)).
Proof.
  intros <-. unfold copy_as. now rewrite (proj2 (same_type_spec S S) eq_refl).
Qed.

(** ** binary64: NaN, and rounding to nearest *)

Lemma nan_mul_l (y : float) : (nan * y)%float = nan.
Proof.
  apply Prim2SF_inj. rewrite mul_spec.
  change (Prim2SF nan) with S754_nan. reflexivity.
Qed.

Lemma nan_mul_r (y : float) : (y * nan)%float = nan.
Proof.
  apply Prim2SF_inj. rewrite mul_spec.
  change (Prim2SF nan) with S754_nan.
  unfold SF64mul, SFmul. now destruct (Prim2SF y).
Qed.

Lemma shr_1_inbetween mrs P D :
  0 <= shr_m mrs -> 0 < D ->
  inbetween (shr_m mrs) (loc_of_shr_record mrs) P D ->
  inbetween (shr_m (shr_1 mrs)) (loc_of_shr_record (shr_1 mrs)) P (2 * D) /\
  shr_m mrs = 2 * shr_m (shr_1 mrs) + (if shr_r (shr_1 mrs) then 1 else 0) /\
  0 <= shr_m (shr_1 mrs).
Proof.
  destruct mrs as [m r s].
  cbn [shr_m]. intros Hm HD H.
  destruct m as [|[p|p|]|p]; try lia;
    destruct r, s;
    cbn [shr_m shr_r shr_1 loc_of_shr_record orb inbetween] in *;
    repeat split; try lia.
Qed.

Lemma shr_1_div2 mrs P D :
  0 <= shr_m mrs -> 0 < D ->
  inbetween (shr_m mrs) (loc_of_shr_record mrs) P D ->
  inbetween (shr_m (shr_1 mrs)) (loc_of_shr_record (shr_1 mrs)) P (2 * D) /\
  shr_m (shr_1 mrs) = shr_m mrs / 2 /\
  0 <= shr_m (shr_1 mrs).
Proof.
  intros Hm HD H.
  destruct (shr_1_inbetween mrs P D Hm HD H) as (H1 & H2 & H3).
  repeat split; try assumption.
  destruct (shr_r (shr_1 mrs)); rewrite H2.
  - apply Z.div_unique with (r := 1); lia.
  - apply Z.div_unique with (r := 0); lia.
Qed.

Lemma shr_iter_inbetween p : forall mrs P D,
  0 <= shr_m mrs -> 0 < D ->
  inbetween (shr_m mrs) (loc_of_shr_record mrs) P D ->
  inbetween (shr_m (iter_pos shr_1 p mrs))
            (loc_of_shr_record (iter_pos shr_1 p mrs)) P (2 ^ Z.pos p * D) /\
  shr_m (iter_pos shr_1 p mrs) = shr_m mrs / 2 ^ Z.pos p /\
  0 <= shr_m (iter_pos shr_1 p mrs).
Proof.
  induction p as [p IH | p IH | ]; intros mrs P D Hm HD H; cbn [iter_pos].
  - destruct (shr_1_div2 mrs P D Hm HD H) as (A1 & A2 & A3).
    assert (HD1 : 0 < 2 * D) by lia.
    destruct (IH _ P _ A3 HD1 A1) as (B1 & B2 & B3).
    assert (HD2 : 0 < 2 ^ Z.pos p * (2 * D)) by (apply Z.mul_pos_pos; lia).
    destruct (IH _ P _ B3 HD2 B1) as (C1 & C2 & C3).
    assert (E : 2 ^ Z.pos p~1 = 2 ^ Z.pos p * (2 ^ Z.pos p * 2)).
    { replace (Z.pos p~1) with (Z.pos p + (Z.pos p + 1)) by lia.
      rewrite !Z.pow_add_r by lia. now rewrite Z.pow_1_r. }
    repeat split; try assumption.
    + rewrite E. replace (2 ^ Z.pos p * (2 ^ Z.pos p * 2) * D)
        with (2 ^ Z.pos p * (2 ^ Z.pos p * (2 * D))) by ring. exact C1.
    + rewrite C2, B2, A2, E.
      rewrite !Z.div_div by lia. f_equal. ring.
  - destruct (IH _ P _ Hm HD H) as (B1 & B2 & B3).
    assert (HD2 : 0 < 2 ^ Z.pos p * D) by (apply Z.mul_pos_pos; lia).
    destruct (IH _ P _ B3 HD2 B1) as (C1 & C2 & C3).
    assert (E : 2 ^ Z.pos p~0 = 2 ^ Z.pos p * 2 ^ Z.pos p).
    { replace (Z.pos p~0) with (Z.pos p + Z.pos p) by lia.
      now rewrite Z.pow_add_r by lia. }
    repeat split; try assumption.
    + rewrite E. rewrite <- Z.mul_assoc. exact C1.
    + rewrite C2, B2, E. rewrite Z.div_div by lia. reflexivity.
  - destruct (shr_1_div2 mrs P D Hm HD H) as (A1 & A2 & A3).
    change (2 ^ 1) with 2. repeat split; assumption.
Qed.

Lemma shr_spec mrs e n P D :
  0 <= shr_m mrs -> 0 < D ->
  inbetween (shr_m mrs) (loc_of_shr_record mrs) P D ->
  inbetween (shr_m (fst (shr mrs e n))) (loc_of_shr_record (fst (shr mrs e n)))
            P (2 ^ Z.max n 0 * D) /\
  shr_m (fst (shr mrs e n)) = shr_m mrs / 2 ^ Z.max n 0 /\
  snd (shr mrs e n) = e + Z.max n 0 /\
  0 <= shr_m (fst (shr mrs e n)).
Proof.
  intros Hm HD H. destruct n as [|p|p]; cbn [shr fst snd].
  - change (Z.max 0 0) with 0. rewrite Z.pow_0_r, Z.mul_1_l, Z.div_1_r, Z.add_0_r.
    auto.
  - replace (Z.max (Z.pos p) 0) with (Z.pos p) by lia.
    destruct (shr_iter_inbetween p mrs P D Hm HD H) as (A & B & C). auto.
  - replace (Z.max (Z.neg p) 0) with 0 by lia.
    rewrite Z.pow_0_r, Z.mul_1_l, Z.div_1_r, Z.add_0_r. auto.
Qed.

Lemma loc_of_shr_record_of_loc m l :
  loc_of_shr_record (shr_record_of_loc m l) = l /\
  shr_m (shr_record_of_loc m l) = m.
Proof. destruct l as [|[ | | ]]; split; reflexivity. Qed.

Lemma shr_fexp_spec m e l P D :
  0 <= m -> 0 < D -> inbetween m l P D ->
  let k := Z.max (fexp prec emax (Zdigits2 m + e) - e) 0 in
  let r := shr_fexp prec emax m e l in
  inbetween (shr_m (fst r)) (loc_of_shr_record (fst r)) P (2 ^ k * D) /\
  shr_m (fst r) = m / 2 ^ k /\
  snd r = e + k /\
  0 <= shr_m (fst r).
Proof.
  intros Hm HD H k r. subst k r. unfold shr_fexp.
  destruct (loc_of_shr_record_of_loc m l) as [El Em].
  pose proof (shr_spec (shr_record_of_loc m l) e
                (fexp prec emax (Zdigits2 m + e) - e) P D) as S.
  rewrite El, Em in S. apply S; assumption.
Qed.

Lemma digits2_pos_bounds p :
  2 ^ (Z.pos (digits2_pos p) - 1) <= Z.pos p < 2 ^ Z.pos (digits2_pos p).
Proof.
  induction p as [p IH | p IH | ]; cbn [digits2_pos].
  - rewrite Pos2Z.inj_succ.
    replace (Z.succ (Z.pos (digits2_pos p)) - 1)
      with (Z.pos (digits2_pos p) - 1 + 1) by lia.
    rewrite Z.pow_succ_r, Z.pow_add_r, Z.pow_1_r by lia. lia.
  - rewrite Pos2Z.inj_succ.
    replace (Z.succ (Z.pos (digits2_pos p)) - 1)
      with (Z.pos (digits2_pos p) - 1 + 1) by lia.
    rewrite Z.pow_succ_r, Z.pow_add_r, Z.pow_1_r by lia. lia.
  - simpl. lia.
Qed.

Lemma Zdigits2_bound m : 0 <= m -> m < 2 ^ Zdigits2 m.
Proof.
  destruct m as [|p|p]; intro H; try lia.
  - simpl. lia.
  - apply digits2_pos_bounds.
Qed.

Lemma round_nearest_even_spec m l P D :
  0 < D -> inbetween m l P D ->
  m <= round_nearest_even m l <= m + 1 /\
  2 * Z.abs (round_nearest_even m l * D - P) <= D.
Proof.
  intros HD H. destruct l as [|[ | | ]]; cbn [round_nearest_even inbetween] in *.
  - split; [lia|]. nia.
  - destruct (Z.even m); split; nia.
  - split; nia.
  - split; nia.
Qed.

Lemma normal_mantissa_bounds (q : positive) :
  Z.pos (digits2_pos q) = prec ->
  4503599627370496 <= Z.pos q < 9007199254740992.
Proof.
  intro H. pose proof (digits2_pos_bounds q) as B. rewrite H in B.
  exact B.
Qed.

Lemma binary_round_aux_normal s m e l P D s' m' e' :
  0 <= m -> 0 < D -> inbetween m l P D ->
  binary_round_aux prec emax s m e l = S754_finite s' m' e' ->
  Z.pos (digits2_pos m') = prec ->
  s' = s /\
  exists k, 0 <= k /\ e' = e + k /\
            2 * Z.abs (Z.pos m' * 2 ^ k * D - P) <= 2 ^ k * D.
Proof.
  intros Hm HD H E Hn.
  unfold binary_round_aux in E.
  pose proof (shr_fexp_spec m e l P D Hm HD H) as S1. cbv zeta in S1.
  destruct (shr_fexp prec emax m e l) as [mrs1 e1]. cbn [fst snd] in S1.
  destruct S1 as (I1 & M1 & E1 & N1).
  set (k1 := Z.max (fexp prec emax (Zdigits2 m + e) - e) 0) in *.
  assert (Hk1 : 0 <= k1) by (subst k1; lia).
  assert (HK1 : 0 < 2 ^ k1) by (apply Z.pow_pos_nonneg; lia).
  assert (HD1 : 0 < 2 ^ k1 * D) by (apply Z.mul_pos_pos; assumption).
  (* the first shift leaves at most [prec] digits *)
  assert (B1 : shr_m mrs1 < 9007199254740992).
  { rewrite M1. apply Z.div_lt_upper_bound; [exact HK1|].
    pose proof (Zdigits2_bound m Hm) as Bm.
    assert (Hd : Zdigits2 m <= 53 + k1).
    { subst k1. unfold fexp, prec. lia. }
    assert (Hd0 : 0 <= Zdigits2 m) by (destruct m; simpl; lia).
    pose proof (Z.pow_le_mono_r 2 (Zdigits2 m) (53 + k1) ltac:(lia) Hd) as Hp.
    rewrite Z.pow_add_r in Hp by lia.
    change (2 ^ 53) with 9007199254740992 in Hp. lia. }
  destruct (round_nearest_even_spec _ _ P _ HD1 I1) as (R1 & R2).
  set (mr := round_nearest_even (shr_m mrs1) (loc_of_shr_record mrs1)) in *.
  assert (Hmr : 0 <= mr) by lia.
  assert (Imr : inbetween mr loc_Exact mr 1) by (simpl; lia).
  pose proof (shr_fexp_spec mr e1 loc_Exact mr 1 Hmr Z.lt_0_1 Imr) as S2.
  cbv zeta in S2.
  destruct (shr_fexp prec emax mr e1 loc_Exact) as [mrs2 e2]. cbn [fst snd] in S2.
  destruct S2 as (_ & M2 & E2 & _).
  set (k2 := Z.max (fexp prec emax (Zdigits2 mr + e1) - e1) 0) in *.
  assert (Hk2 : 0 <= k2) by (subst k2; lia).
  assert (HK2 : 0 < 2 ^ k2) by (apply Z.pow_pos_nonneg; lia).
  destruct (shr_m mrs2) as [|q|q] eqn:Eq; try discriminate.
  destruct (e2 <=? emax - prec); try discriminate.
  injection E as <- <- <-. split; [reflexivity|].
  pose proof (normal_mantissa_bounds q Hn) as Bq.
  (* the second shift is by one bit at most, and loses nothing *)
  assert (Ex : Z.pos q * 2 ^ k2 = mr).
  { pose proof (Z.mul_div_le mr (2 ^ k2) HK2) as L. rewrite <- M2 in L.
    assert (HK : 2 ^ k2 = 1 \/ 2 ^ k2 = 2) by nia.
    destruct HK as [HK | HK]; rewrite HK in *.
    - rewrite Z.div_1_r in M2. lia.
    - assert (mr = 9007199254740992) by lia. subst mr. lia. }
  exists (k1 + k2). repeat split; [lia | lia |].
  rewrite Z.pow_add_r by lia.
  replace (Z.pos q * (2 ^ k1 * 2 ^ k2) * D) with (mr * (2 ^ k1 * D))
    by (rewrite <- Ex; ring).
  nia.
Qed.

Lemma new_location_inbetween nb q r :
  0 < nb -> 0 <= r < nb ->
  inbetween q (new_location nb r) (nb * q + r) nb.
Proof.
  intros Hnb Hr. unfold new_location, new_location_even, new_location_odd.
  destruct (Z.even nb) eqn:Ev.
  - destruct (Z.eqb_spec r 0) as [-> | Hr0]; cbn [inbetween]; [lia|].
    split; [lia|].
    destruct (Z.compare_spec (2 * r) nb); lia.
  - destruct (Z.eqb_spec r 0) as [-> | Hr0]; cbn [inbetween]; [lia|].
    split; [lia|].
    assert (Hodd : Z.odd nb = true) by (rewrite <- Z.negb_even, Ev; reflexivity).
    apply Z.odd_spec in Hodd. destruct Hodd as [h Hh].
    destruct (Z.compare_spec (2 * r + 1) nb); lia.
Qed.

Lemma SFdiv_core_binary_spec mx ex my ey :
  exists s,
    0 <= s /\
    ex - ey = snd (fst (SFdiv_core_binary prec emax (Z.pos mx) ex (Z.pos my) ey)) + s /\
    0 <= fst (fst (SFdiv_core_binary prec emax (Z.pos mx) ex (Z.pos my) ey)) /\
    inbetween (fst (fst (SFdiv_core_binary prec emax (Z.pos mx) ex (Z.pos my) ey)))
              (snd (SFdiv_core_binary prec emax (Z.pos mx) ex (Z.pos my) ey))
              (Z.pos mx * 2 ^ s) (Z.pos my).
Proof.
  unfold SFdiv_core_binary.
  set (e' := Z.min _ (ex - ey)).
  set (s := ex - ey - e').
  assert (Hs : 0 <= s) by (subst s e'; lia).
  set (m' := match s with Z.pos _ => Z.shiftl (Z.pos mx) s | 0 => Z.pos mx | Z.neg _ => 0 end).
  assert (Hm' : m' = Z.pos mx * 2 ^ s).
  { subst m'. destruct s as [|p|p] eqn:Es; try lia.
    apply Z.shiftl_mul_pow2. lia. }
  pose proof (Z_div_mod m' (Z.pos my) ltac:(lia)) as Hdiv.
  destruct (Z.div_eucl m' (Z.pos my)) as [q r]. cbn [fst snd].
  destruct Hdiv as [Hq Hr].
  exists s. repeat split; try lia.
  - assert (0 <= m') by (rewrite Hm'; apply Z.mul_nonneg_nonneg; [lia|apply Z.pow_nonneg; lia]).
    nia.
  - rewrite <- Hm', Hq. apply new_location_inbetween; lia.
Qed.

Lemma is_normal_spec x :
  is_normal x = true ->
  exists s m e, Prim2SF x = S754_finite s m e /\ Z.pos (digits2_pos m) = prec.
Proof.
  unfold is_normal. rewrite classify_spec. unfold SF64classify, SFclassify.
  destruct (Prim2SF x) as [[|]|[|]| |s m e]; try discriminate.
  intro H. exists s, m, e. split; [reflexivity|].
  destruct s; destruct (Z.eqb_spec (Z.pos (digits2_pos m)) prec);
    try discriminate; assumption.
Qed.

Lemma Qpow2_add (c k : Z) :
  0 <= k -> (2 ^ (c + k) == 2 ^ c * inject_Z (2 ^ k))%Q.
Proof.
  intro Hk. rewrite Qpower_plus by (intro E; discriminate E).
  now rewrite Zpower_Qpower.
Qed.

Lemma SFdiv_mul_recover x y sq mq eq sr mr er :
  SF64div x y = S754_finite sq mq eq ->
  Z.pos (digits2_pos mq) = prec ->
  SF64mul (S754_finite sq mq eq) y = S754_finite sr mr er ->
  Z.pos (digits2_pos mr) = prec ->
  (Qabs (SF2Q (S754_finite sr mr er) - SF2Q x) <= 2 ^ (-51) * Qabs (SF2Q x))%Q.
Proof.
  intros Ediv Hq Emul Hr.
  destruct x as [sx|sx| |sx mx ex], y as [sy|sy| |sy my ey];
    try discriminate Ediv.
  unfold SF64div, SFdiv in Ediv. unfold SF64mul, SFmul in Emul.
  destruct (SFdiv_core_binary_spec mx ex my ey) as (s & Hs & Es & Hmz & Iz).
  destruct (SFdiv_core_binary prec emax (Z.pos mx) ex (Z.pos my) ey)
    as [[mz ez] lz]. cbn [fst snd] in *.
  destruct (binary_round_aux_normal _ _ _ _ _ _ _ _ _ Hmz (Pos2Z.is_pos my) Iz Ediv Hq)
    as (Esq & k1 & Hk1 & Eeq & B1).
  assert (Im : inbetween (Z.pos (mq * my)) loc_Exact (Z.pos mq * Z.pos my) 1)
    by (simpl; lia).
  destruct (binary_round_aux_normal _ _ _ _ _ _ _ _ _
              (Pos2Z.is_nonneg _) Z.lt_0_1 Im Emul Hr)
    as (Esr & k2 & Hk2 & Eer & B2).
  pose proof (normal_mantissa_bounds mq Hq) as Bq.
  pose proof (normal_mantissa_bounds mr Hr) as Br.
  assert (HK1 : 0 < 2 ^ k1) by (apply Z.pow_pos_nonneg; lia).
  assert (HK2 : 0 < 2 ^ k2) by (apply Z.pow_pos_nonneg; lia).
  assert (HS : 0 < 2 ^ s) by (apply Z.pow_pos_nonneg; lia).
  set (X := Z.pos mx * 2 ^ s) in *.
  set (Y := Z.pos mr * (2 ^ k2 * 2 ^ k1)).
  set (W := Z.pos mq * 2 ^ k1 * Z.pos my) in *.
  assert (HX : 0 < X) by (subst X; apply Z.mul_pos_pos; lia).
  assert (BW : 9007199254740992 * Z.abs (W - X) <= W).
  { assert (4503599627370496 * (2 ^ k1 * Z.pos my) <= W) by (subst W; nia).
    lia. }
  assert (BY : 9007199254740992 * Z.abs (Y - W) <= Y).
  { assert (4503599627370496 * (2 ^ k2 * 2 ^ k1) <= Y) by (subst Y; nia).
    assert (2 * Z.abs (Y - W) <= 2 ^ k2 * 2 ^ k1).
    { replace (Y - W) with ((Z.pos mr * 2 ^ k2 * 1 - Z.pos mq * Z.pos my) * 2 ^ k1)
        by (subst Y W; ring).
      rewrite Z.abs_mul, (Z.abs_eq (2 ^ k1)) by lia. nia. }
    lia. }
  assert (BZ : - X <= 2251799813685248 * (Y - X) <= X) by lia.
  (* back to the rationals *)
  assert (Esign : sr = sx).
  { rewrite Esr, Esq. now destruct sx, sy. }
  set (c := ez + ey).
  assert (Eex : ex = c + s) by (subst c; lia).
  assert (Eerc : er = c + (k2 + k1)) by (subst c; lia).
  unfold SF2Q. rewrite Esign, Eex, Eerc.
  rewrite !Qpow2_add by lia.
  rewrite Z.pow_add_r by lia.
  assert (HT : (0 < 2 ^ c)%Q) by (apply Qpower_0_lt; reflexivity).
  set (T := (2 ^ c)%Q) in *.
  assert (EX : (inject_Z (Z.pos mx) * (T * inject_Z (2 ^ s)) == T * inject_Z X)%Q).
  { subst X. rewrite inject_Z_mult. ring. }
  assert (EY : (inject_Z (Z.pos mr) * (T * inject_Z (2 ^ k2 * 2 ^ k1)) == T * inject_Z Y)%Q).
  { subst Y. rewrite (inject_Z_mult (Z.pos mr)). ring. }
  rewrite EX, EY.
  destruct BZ as [BZ1 BZ2].
  rewrite Zle_Qle in BZ1, BZ2.
  unfold Z.sub in BZ1, BZ2.
  rewrite ?inject_Z_mult, ?inject_Z_plus, ?inject_Z_opp in BZ1, BZ2.
  assert (HX' : (0 <= inject_Z X)%Q).
  { change 0%Q with (inject_Z 0). rewrite <- Zle_Qle. lia. }
  set (a := inject_Z Y) in *. set (b := inject_Z X) in *.
  setoid_replace (2 ^ (-51))%Q with (1 # 2251799813685248)%Q by reflexivity.
  change (inject_Z 2251799813685248) with (2251799813685248 # 1)%Q in *.
  assert (Eabs : (Qabs ((if sx then -1 else 1) * (T * b)) == T * b)%Q).
  { rewrite Qabs_Qmult, (Qabs_pos (T * b)) by nra.
    destruct sx; simpl; ring. }
  rewrite Eabs. apply Qabs_Qle_condition.
  destruct sx; split; nra.
Qed.

Theorem div_mul_recovers (a b : float) :
  is_normal (a / b) = true ->
  is_normal (a / b * b) = true ->
  (Qabs (F2Q (a / b * b) - F2Q a) <= 2 ^ (-51) * Qabs (F2Q a))%Q.
Proof.
  intros Hq Hr.
  destruct (is_normal_spec _ Hq) as (sq & mq & eq & Eq & Dq).
  destruct (is_normal_spec _ Hr) as (sr & mr & er & Er & Dr).
  unfold F2Q. rewrite Er.
  rewrite mul_spec, Eq in Er. rewrite div_spec in Eq.
  exact (SFdiv_mul_recover _ _ _ _ _ _ _ _ Eq Dq Er Dr).
Qed.

(** ** The claims *)

Local Open Scope float_scope.

(** *** Multiplication and division of quantities *)

(** C1, as amended.  For quantities [a] of dimension vector [D1] and [b] of
    [D2]: [a * b] has the component-wise rational sum of [D1] and [D2] as
    its dimension vector and [a.val() * b.val()] as its value; [a / b] has
    the component-wise rational difference and [a.val() / b.val()];
    [(a / b) * b] has [D1] again, as rationals, and whenever the quotient
    and its product with [b.val()] are normal binary64 numbers (nothing
    overflowed, underflowed or was NaN) its value is within a relative error
    of 2^-51 of [a.val()]. *)
Theorem C1_product_quotient D1 D2 (a : Quantity D1) (b : Quantity D2) :
  wf_dims D1 -> wf_dims D2 ->
  (forall s, to_Q (exponent (dims_of (op_mul a b)) s)
             == to_Q (exponent D1 s) + to_Q (exponent D2 s))%Q /\
  val (op_mul a b) = val a * val b /\
  (forall s, to_Q (exponent (dims_of (op_div a b)) s)
             == to_Q (exponent D1 s) - to_Q (exponent D2 s))%Q /\
  val (op_div a b) = val a / val b /\
  (forall s, to_Q (exponent (dims_of (op_mul (op_div a b) b)) s)
             == to_Q (exponent D1 s))%Q /\
  (is_normal (val (op_div a b)) = true ->
   is_normal (val (op_mul (op_div a b) b)) = true ->
   (Qabs (F2Q (val (op_mul (op_div a b) b)) - F2Q (val a))
    <= 2 ^ (-51) * Qabs (F2Q (val a)))%Q).
Proof.
  intros H1 H2. unfold dims_of. repeat split.
  - intro s. rewrite exponent_QMultiplication. now apply to_Q_ratio_add.
  - intro s. rewrite exponent_QDivision. now apply to_Q_ratio_subtract.
  - intro s. rewrite exponent_QMultiplication, exponent_QDivision.
    rewrite to_Q_ratio_add, to_Q_ratio_subtract; auto.
    + ring.
    + apply wf_type. unfold wf; simpl.
      pose proof (den_pos _ (H1 s)). pose proof (den_pos _ (H2 s)). nia.
  - apply div_mul_recovers.
Qed.

(** One metre over three seconds, times three seconds. *)
Lemma C1_product_quotient_witness :
  let a := mkQuantity Length 1 in
  let b := mkQuantity Time 3 in
  (forall s, to_Q (exponent (dims_of (op_mul a b)) s)
             == to_Q (exponent Length s) + to_Q (exponent Time s))%Q /\
  val (op_mul a b) = val a * val b /\
  (forall s, to_Q (exponent (dims_of (op_div a b)) s)
             == to_Q (exponent Length s) - to_Q (exponent Time s))%Q /\
  val (op_div a b) = val a / val b /\
  (forall s, to_Q (exponent (dims_of (op_mul (op_div a b) b)) s)
             == to_Q (exponent Length s))%Q /\
  (Qabs (F2Q (val (op_mul (op_div a b) b)) - F2Q (val a))
   <= 2 ^ (-51) * Qabs (F2Q (val a)))%Q.
Proof.
  assert (H1 : wf_dims Length) by (intro s; destruct s; unfold wf; simpl; lia).
  assert (H2 : wf_dims Time) by (intro s; destruct s; unfold wf; simpl; lia).
  destruct (C1_product_quotient Length Time
              (mkQuantity Length 1) (mkQuantity Time 3) H1 H2)
    as (A & B & C & D' & E & F).
  repeat split; try assumption.
  apply F; reflexivity.
Defined.

(** C1 as stated fails: the smallest positive [double] is a nonzero divisor,
    the quotient [1 / 2^-1074] overflows to infinity, and infinity times
    the divisor is infinity, not 1. *)
Lemma C1_overflow_counterexample :
  let a := mkQuantity Length 1 in
  let b := mkQuantity Time 0x1p-1074 in
  (val b =? 0) = false /\
  val (op_mul (op_div a b) b) = infinity /\
  close_to 1 (val a) (val (op_mul (op_div a b) b)) = false.
Proof. vm_compute. repeat split. Qed.

(** Underflow loses the value as overflow does: half the smallest positive
    [double] rounds to zero. *)
Example underflow_loses_value : 0x1p-1074 / 2 * 2 = 0.
Proof. reflexivity. Qed.

(** *** Compound subtraction *)

Lemma op_sub_assign_unchanged {d} (q r : Quantity d) : op_sub_assign q r = q.
Proof. reflexivity. Qed.

(** C2 at [q = 5_m], [r = 3_m]: after [q -= r] the stored value is still 5,
    while the previous value minus [r]'s is 2. *)
Theorem C2_sub_assign_at_5_3 :
  let q := mkQuantity Length 5 in
  let r := mkQuantity Length 3 in
  value (op_sub_assign q r) = 5 /\ value q - value r = 2.
Proof. vm_compute. split; reflexivity. Qed.

(** *** Magnitude *)

(** On a reduced dimension vector [magnitude] does return a [T]; its value is
    the square root of the sum of the components' square roots. *)
Lemma magnitude_value T (v : Vector3D T) :
  reduced_dims T = true ->
  magnitude v =
  Some (mkQuantity T
          (sqrt (sqrt (val (x v)) + sqrt (val (y v)) + sqrt (val (z v))))).
Proof.
  intro HT. unfold magnitude.
  rewrite (copy_as_eq T); [reflexivity|].
  apply QRoot_QPower_reduced; [exact HT | discriminate].
Qed.

(** C3 at [v = {16_m, 0_m, 0_m}]: [magnitude] returns 2 metres, the
    Euclidean norm of the component values is 16. *)
Theorem C3_magnitude_at_16_0_0 :
  let v := mkVector3D (mkQuantity Length 16) (mkQuantity Length 0)
                      (mkQuantity Length 0) in
  magnitude v = Some (mkQuantity Length 2) /\ euclidean_norm v = 16.
Proof. vm_compute. split; reflexivity. Qed.

(** *** Polar round trip *)

(** [fromPolar] yields no vector, whatever its arguments: [Quantity] has no
    member [abs]. *)
Lemma fromPolar_rejected (M : cmath) T (t : Vector3D Angle) (m : Quantity T) :
  fromPolar t m = None.
Proof. reflexivity. Qed.

(** C4: for every vector [v], [fromPolar(v.theta(), v.magnitude())] yields no
    vector at all, so no component is reconstructed.  At
    [v = {16_m, 0_m, 0_m}], whose Euclidean norm is 16, the two arguments
    are themselves off: [magnitude] is 2 and [theta] asks for the arc
    cosines of [16/2 = 8], 0 and 0, where the direction cosines are 1, 0
    and 0. *)
Theorem C4_polar_round_trip_rejected (M : cmath) T (v : Vector3D T) :
  (do t <- theta v; do m <- magnitude v; fromPolar t m) = None /\
  (forall (t : Vector3D Angle) (m : Quantity T), fromPolar t m = None) /\
  let v16 := mkVector3D (mkQuantity Length 16) (mkQuantity Length 0)
                        (mkQuantity Length 0) in
  euclidean_norm v16 = 16 /\
  magnitude v16 = Some (mkQuantity Length 2) /\
  theta v16 = Some (mkVector3D (mkQuantity Angle (std_acos 8))
                               (mkQuantity Angle (std_acos 0))
                               (mkQuantity Angle (std_acos 0))).
Proof.
  split; [ | split; [ | repeat split ] ].
  - destruct (theta v) as [t|]; [ | reflexivity ].
    cbn [option_bind]. destruct (magnitude v) as [m|]; reflexivity.
  - intros t m. apply fromPolar_rejected.
Qed.

(** *** Root of a power *)

Lemma root_pow_value {M : cmath} (N : Z) {Q} (q : Quantity Q) :
  val (units.root N (units.pow N q)) =
  std_pow (std_pow (val q) (double_of_int N)) (1 / double_of_int N).
Proof. reflexivity. Qed.

Lemma squares_only_exact : pow_exact_squares squares_only.
Proof. split; reflexivity. Qed.

(** With any [pow] that is exact on those two calls, the square root of the
    square of -2 is 2. *)
Lemma root_pow_of_minus_two (M : cmath) :
  pow_exact_squares M ->
  val (units.root 2 (units.pow 2 (mkQuantity Length (-2)))) = 2.
Proof.
  intros [H1 H2]. rewrite root_pow_value.
  change (val (mkQuantity Length (-2))) with (-2).
  change (double_of_int 2) with 2.
  rewrite H1. change (1 / 2) with 0.5. exact H2.
Qed.

(** C5 as stated fails on a negative quantity: [root<2>(pow<2>(-2_m))] is
    2, which is not within any tolerance of -2 (not even within 100%). *)
Lemma C5_negative_counterexample :
  ~ (forall M : cmath, pow_exact_squares M ->
     forall (N : Z) (Q : Dims) (q : Quantity Q),
       (1 <= N)%Z ->
       close_to 1 (val q) (val (units.root N (units.pow N q))) = true).
Proof.
  intro H.
  specialize (H squares_only squares_only_exact 2%Z Length
                (mkQuantity Length (-2)) ltac:(lia)).
  rewrite (root_pow_of_minus_two squares_only squares_only_exact) in H.
  vm_compute in H. discriminate.
Qed.

Local Close Scope float_scope.

(** A [double] that is neither NaN nor infinite is a zero or has a mantissa
    and an exponent. *)
Lemma is_finite_spec (a : float) :
  is_finite a = true ->
  (exists s, Prim2SF a = S754_zero s) \/
  (exists s m e, Prim2SF a = S754_finite s m e).
Proof.
  unfold is_finite, is_nan, is_infinity.
  rewrite !eqb_spec, abs_spec. change (Prim2SF infinity) with (S754_infinity false).
  destruct (Prim2SF a) as [s|s| |s m e]; try discriminate; eauto.
  destruct s; discriminate.
Qed.

Lemma finite_nonneg (v : float) :
  is_finite v = true -> (v <? 0)%float = false -> (0 <= F2Q v)%Q.
Proof.
  intros Hf Hn. rewrite ltb_spec in Hn.
  change (Prim2SF 0) with (S754_zero false) in Hn.
  unfold F2Q.
  destruct (is_finite_spec v Hf) as [[s E] | (s & m & e & E)]; rewrite E in *.
  - apply Qle_refl.
  - destruct s; [discriminate Hn | ].
    unfold SF2Q.
    assert (HT : (0 < 2 ^ e)%Q) by (apply Qpower_0_lt; reflexivity).
    assert (Hm : (0 < inject_Z (Z.pos m))%Q).
    { change 0%Q with (inject_Z 0). rewrite <- Zlt_Qlt. lia. }
    nra.
Qed.

(** ** Integer powers of rationals *)

Lemma Qpower_succ (a : Q) (p : positive) :
  (a ^ Z.pos (Pos.succ p) == a ^ Z.pos p * a)%Q.
Proof.
  rewrite Pos2Z.inj_succ. unfold Z.succ.
  rewrite Qpower_plus' by lia. reflexivity.
Qed.

Lemma Qpower_lt_mono (a b : Q) (p : positive) :
  (0 <= a -> a < b -> a ^ Z.pos p < b ^ Z.pos p)%Q.
Proof.
  intros Ha Hab. induction p as [|p IH] using Pos.peano_ind.
  - exact Hab.
  - rewrite !Qpower_succ.
    pose proof (Qpower_0_le a (Z.pos p) Ha). nra.
Qed.

Lemma Qpower_ge_base (u : Q) (p : positive) : (1 <= u -> u <= u ^ Z.pos p)%Q.
Proof.
  intro Hu. induction p as [|p IH] using Pos.peano_ind.
  - apply Qle_refl.
  - rewrite Qpower_succ. nra.
Qed.

Lemma Qpower_le_base (l : Q) (p : positive) :
  (0 <= l -> l <= 1 -> l ^ Z.pos p <= l)%Q.
Proof.
  intros H0 H1. induction p as [|p IH] using Pos.peano_ind.
  - apply Qle_refl.
  - rewrite Qpower_succ.
    pose proof (Qpower_0_le l (Z.pos p) H0). nra.
Qed.

(** If [W] is within [eps] of [a^N] and [r^N] within [eps] of [W], then [r]
    is within [2 eps + eps^2] of [a]. *)
Lemma root_of_power_close (a W r eps : Q) (N : Z) :
  (1 <= N)%Z ->
  (0 <= a -> 0 <= r -> 0 <= eps -> eps <= 1 ->
   Qabs (W - a ^ N) <= eps * a ^ N ->
   Qabs (r ^ N - W) <= eps * W ->
   Qabs (r - a) <= (2 * eps + eps * eps) * a)%Q.
Proof.
  intros HN Ha Hr He0 He1 H1 H2.
  destruct N as [|p|p]; try lia.
  pose proof (Qpower_0_le a (Z.pos p) Ha) as HA.
  set (A := (a ^ Z.pos p)%Q) in *.
  apply Qabs_Qle_condition in H1, H2.
  destruct H1 as [H1a H1b], H2 as [H2a H2b].
  assert (HW : (0 <= W)%Q) by nra.
  assert (U : (r ^ Z.pos p <= (1 + eps) * (1 + eps) * A)%Q) by nra.
  assert (L : ((1 - eps) * (1 - eps) * A <= r ^ Z.pos p)%Q) by nra.
  assert (Up : (r <= (1 + eps) * (1 + eps) * a)%Q).
  { destruct (Qlt_le_dec ((1 + eps) * (1 + eps) * a) r) as [C | C]; [ | exact C ].
    exfalso.
    assert (Hua : (0 <= (1 + eps) * (1 + eps) * a)%Q) by nra.
    pose proof (Qpower_lt_mono _ _ p Hua C) as M.
    rewrite Qmult_power in M. fold A in M.
    assert (Hu : (1 <= (1 + eps) * (1 + eps))%Q) by nra.
    pose proof (Qpower_ge_base _ p Hu) as G. nra. }
  assert (Lo : ((1 - eps) * (1 - eps) * a <= r)%Q).
  { destruct (Qlt_le_dec r ((1 - eps) * (1 - eps) * a)) as [C | C]; [ | exact C ].
    exfalso.
    pose proof (Qpower_lt_mono _ _ p Hr C) as M.
    rewrite Qmult_power in M. fold A in M.
    assert (Hl0 : (0 <= (1 - eps) * (1 - eps))%Q) by nra.
    assert (Hl1 : ((1 - eps) * (1 - eps) <= 1)%Q) by nra.
    pose proof (Qpower_le_base _ p Hl0 Hl1) as G. nra. }
  apply Qabs_Qle_condition. split; nra.
Qed.


Local Open Scope float_scope.

(** C5, as amended.  For every quantity [q] and integer [N >= 1],
    [root<N>(pow<N>(q))] has [q]'s dimension vector, each exponent being
    multiplied by [N] and divided by [N] again (the very same type when the
    exponents are reduced), and its value is
    [std::pow(std::pow(q.val(), N), 1.0 / N)].  When [q.val()] is finite and
    not negative and [std::pow] is accurate to a relative error [eps <= 1]
    on these two calls, that value is finite and within a relative error of
    [2 eps + eps^2] of [q.val()]. *)
Theorem C5_root_pow (M : cmath) (N : Z) Q (q : Quantity Q) :
  wf_dims Q -> (1 <= N)%Z ->
  (forall s, to_Q (exponent (dims_of (units.root N (units.pow N q))) s)
             == to_Q (exponent Q s) * inject_Z N / inject_Z N)%Q /\
  (forall s, to_Q (exponent (dims_of (units.root N (units.pow N q))) s)
             == to_Q (exponent Q s))%Q /\
  (reduced_dims Q = true -> dims_of (units.root N (units.pow N q)) = Q) /\
  val (units.root N (units.pow N q)) =
  std_pow (std_pow (val q) (double_of_int N)) (1 / double_of_int N) /\
  (forall eps : QArith_base.Q,
      is_finite (val q) = true -> (val q <? 0) = false ->
      (0 <= eps)%Q -> (eps <= 1)%Q ->
      pow_accurate M eps N (val q) ->
      is_finite (val (units.root N (units.pow N q))) = true /\
      (Qabs (F2Q (val (units.root N (units.pow N q))) - F2Q (val q))
       <= (2 * eps + eps * eps) * F2Q (val q))%Q).
Proof.
  intros Hwf HN. unfold dims_of.
  assert (HQ : forall s,
             (to_Q (exponent (QRoot (QPower Q (of_int N)) (of_int N)) s)
              == to_Q (exponent Q s))%Q).
  { intro s. rewrite exponent_QRoot, exponent_QPower.
    apply to_Q_root_power; [apply Hwf | lia]. }
  repeat split.
  - intro s. rewrite HQ. field. apply inject_Z_neq0. lia.
  - exact HQ.
  - intro HR. apply QRoot_QPower_reduced; [exact HR | lia].
  - destruct H3 as (_ & Hf & _). exact Hf.
  - destruct H3 as (Hw & Hf & A1 & A2 & Hr).
    rewrite root_pow_value.
    apply (root_of_power_close (F2Q (val q))
             (F2Q (std_pow (val q) (double_of_int N))) _ eps N HN);
      try assumption.
    now apply finite_nonneg.
Qed.

(** The square root of the square of three metres per second. *)
Lemma C5_root_pow_witness :
  let M := squares_only in
  let q := mkQuantity LinearVelocity 3 in
  let eps := (1 # 4503599627370496)%Q in
  (forall s, to_Q (exponent (dims_of (units.root 2 (units.pow 2 q))) s)
             == to_Q (exponent LinearVelocity s) * inject_Z 2 / inject_Z 2)%Q /\
  (forall s, to_Q (exponent (dims_of (units.root 2 (units.pow 2 q))) s)
             == to_Q (exponent LinearVelocity s))%Q /\
  (reduced_dims LinearVelocity = true ->
   dims_of (units.root 2 (units.pow 2 q)) = LinearVelocity) /\
  val (units.root 2 (units.pow 2 q)) =
  std_pow (std_pow (val q) (double_of_int 2)) (1 / double_of_int 2) /\
  is_finite (val (units.root 2 (units.pow 2 q))) = true /\
  (Qabs (F2Q (val (units.root 2 (units.pow 2 q))) - F2Q (val q))
   <= (2 * eps + eps * eps) * F2Q (val q))%Q.
Proof.
  assert (Hwf : wf_dims LinearVelocity)
    by (intro s; destruct s; unfold wf; simpl; lia).
  destruct (C5_root_pow squares_only 2 LinearVelocity
              (mkQuantity LinearVelocity 3) Hwf ltac:(lia))
    as (A & B & C & D' & E).
  repeat split; try assumption;
    apply (E (1 # 4503599627370496)%Q); try reflexivity;
    try (vm_compute; discriminate);
    (repeat split; vm_compute; discriminate).
Defined.

(** *** Assignment of a bare [double] *)

Lemma ratio_equal_zero r :
  wf r -> (ratio_equal r (of_int 0) = true <-> (to_Q r == 0)%Q).
Proof.
  intro H. rewrite ratio_equal_spec by (assumption || apply wf_of_int).
  now rewrite to_Q_of_int.
Qed.

Lemma is_number_spec d :
  wf_dims d -> (is_number d = true <-> forall s, (to_Q (exponent d s) == 0)%Q).
Proof.
  intro Hwf. unfold is_number. rewrite !andb_true_iff.
  rewrite (ratio_equal_zero _ (Hwf s_mass)), (ratio_equal_zero _ (Hwf s_length)),
    (ratio_equal_zero _ (Hwf s_time)), (ratio_equal_zero _ (Hwf s_current)),
    (ratio_equal_zero _ (Hwf s_angle)), (ratio_equal_zero _ (Hwf s_temperature)),
    (ratio_equal_zero _ (Hwf s_luminosity)), (ratio_equal_zero _ (Hwf s_moles)).
  simpl. split.
  - intros H s. destruct s; simpl; tauto.
  - intro H. repeat split.
    + apply (H s_mass).
    + apply (H s_length).
    + apply (H s_time).
    + apply (H s_current).
    + apply (H s_angle).
    + apply (H s_temperature).
    + apply (H s_luminosity).
    + apply (H s_moles).
Qed.

(** C6.  [q = d] for a [double d] is accepted exactly when every exponent of
    [q]'s dimension vector is zero, and then the stored value is [d]. *)
Theorem C6_assign_double d (q : Quantity d) (rhs : float) :
  wf_dims d ->
  ((exists q', op_assign q rhs = Some q') <->
   (forall s, (to_Q (exponent d s) == 0)%Q)) /\
  (forall q', op_assign q rhs = Some q' -> value q' = rhs).
Proof.
  intro Hwf. rewrite <- (is_number_spec d Hwf). unfold op_assign.
  destruct (is_number d); split.
  - split; [reflexivity | eauto].
  - intros q' E. injection E as <-. reflexivity.
  - split; [intros [q' E]; discriminate | discriminate].
  - discriminate.
Qed.

Lemma C6_assign_double_witness :
  ((exists q', op_assign (mkQuantity Number 5) 3 = Some q') <->
   (forall s, (to_Q (exponent Number s) == 0)%Q)) /\
  (forall q', op_assign (mkQuantity Number 5) 3 = Some q' -> value q' = 3).
Proof.
  apply (C6_assign_double Number (mkQuantity Number 5) 3).
  intro s; destruct s; unfold wf; simpl; lia.
Defined.

(** A metre is not a number: the assignment is rejected. *)
Example assign_double_to_length :
  op_assign (mkQuantity Length 5) 3 = None.
Proof. reflexivity. Qed.

(** *** Angular and linear quantities *)


(** C7.  [toLinear] multiplies the value by [diameter.val() / 2], [toAngular]
    divides it by [diameter.val() / 2]; both return the argument's dimension
    vector with the length and angle slots exchanged, every other slot as it
    was. *)
Theorem C7_toLinear_toAngular Q (q : Quantity Q) (diameter : Quantity Length) :
  (val (toLinear Q q diameter) = val q * (val diameter / 2) /\
   val (toAngular Q q diameter) = val q / (val diameter / 2)) /\
  (dims_of (toLinear Q q diameter) = swap_length_angle Q /\
   dims_of (toAngular Q q diameter) = swap_length_angle Q) /\
  (length (swap_length_angle Q) = angle Q /\
   angle (swap_length_angle Q) = length Q /\
   forall s, s <> s_length -> s <> s_angle ->
             exponent (swap_length_angle Q) s = exponent Q s).
Proof.
  repeat split. intros s Hl Ha. destruct s; try reflexivity; contradiction.
Qed.

(** Three radians per second on a wheel four metres across: six metres per
    second. *)
Example toLinear_3_4 :
  toLinear AngularVelocity (mkQuantity _ 3) (mkQuantity _ 4)
  = mkQuantity LinearVelocity 6.
Proof. reflexivity. Qed.

(** *** Difference of two vectors *)

(** C8: whatever [a] and [b], [a.vectorTo(b)] yields no vector; the body
    builds a [Vector2D<T>] from three components and returns it as a
    [Vector3D<T>]. *)
Theorem C8_vectorTo_rejected T (a b : Vector3D T) : vectorTo a b = None.
Proof. reflexivity. Qed.

(** The component-wise difference the documentation promises is what
    [operator-] computes. *)
Example Vector3D_sub_components T (a b : Vector3D T) :
  Vector3D_sub b a =
  mkVector3D (op_sub (x b) (x a)) (op_sub (y b) (y a)) (op_sub (z b) (z a)).
Proof. reflexivity. Qed.

(** *** Unchecked reinterpretation *)

(** C9.  [unit_cast<Q1>(q)] is a [Q1] holding exactly [q]'s value, whatever
    the two dimension vectors. *)
Theorem C9_unit_cast_value Q1 Q2 (q : Quantity Q2) :
  val (unit_cast Q1 q) = val q /\ dims_of (unit_cast Q1 q) = Q1.
Proof. split; reflexivity. Qed.

(** *** Sign *)

(** C10.  [sgn(q)] is -1 when [q.val() < 0] and 1 otherwise; it is 1 on a
    zero-valued quantity and never 0. *)
Theorem C10_sgn Q (q : Quantity Q) :
  ((val q <? 0) = true -> units.sgn q = (-1)%Z) /\
  ((val q <? 0) = false -> units.sgn q = 1%Z) /\
  units.sgn (mkQuantity Q 0) = 1%Z /\
  units.sgn (mkQuantity Q (-0)) = 1%Z /\
  units.sgn q <> 0%Z.
Proof.
  unfold units.sgn. repeat split.
  - now intros ->.
  - now intros ->.
  - now destruct (val q <? 0).
Qed.

(** * More of the code *)

Local Close Scope float_scope.
Local Open Scope Z_scope.

(** ** binary64: commutativity, comparisons, special values *)

Lemma SFmul_comm x y : SF64mul x y = SF64mul y x.
Proof.
  unfold SF64mul, SFmul.
  destruct x as [sx|sx| |sx mx ex], y as [sy|sy| |sy my ey];
    try reflexivity; try (now rewrite xorb_comm).
  now rewrite xorb_comm, Pos.mul_comm, Z.add_comm.
Qed.

Lemma float_mul_comm (a b : float) : (a * b = b * a)%float.
Proof. apply Prim2SF_inj. rewrite !mul_spec. apply SFmul_comm. Qed.

Lemma SFadd_comm x y : SF64add x y = SF64add y x.
Proof.
  unfold SF64add, SFadd.
  destruct x as [sx|sx| |sx mx ex], y as [sy|sy| |sy my ey];
    try reflexivity; try (now destruct sx, sy).
  now rewrite Z.min_comm, Z.add_comm.
Qed.

Lemma float_add_comm (a b : float) : (a + b = b + a)%float.
Proof. apply Prim2SF_inj. rewrite !add_spec. apply SFadd_comm. Qed.

Lemma SFcompare_antisym x y :
  SFcompare y x = option_map CompOpp (SFcompare x y).
Proof.
  destruct x as [sx|sx| |sx mx ex], y as [sy|sy| |sy my ey];
    try reflexivity; try (now destruct sx); try (now destruct sy);
    try (now destruct sx, sy).
  cbn [SFcompare option_map].
  pose proof (Z.compare_antisym ex ey) as A.
  pose proof (Pos.compare_cont_antisym mx my Eq) as B. cbn [CompOpp] in B.
  destruct sx, sy; try reflexivity; f_equal; rewrite A;
    destruct (ex ?= ey); cbn [CompOpp]; try reflexivity.
  - now rewrite <- B, CompOpp_involutive.
  - now rewrite <- B.
Qed.

Lemma SFcompare_refl x : x <> S754_nan -> SFcompare x x = Some Eq.
Proof.
  destruct x as [s|s| |s m e]; intro H; try reflexivity; try (now destruct s).
  - contradiction.
  - cbn [SFcompare]. rewrite Z.compare_refl.
    assert (E : Pos.compare_cont Eq m m = Eq) by apply Pos.compare_refl.
    rewrite E. now destruct s.
Qed.

Lemma SFcompare_None x y :
  SFcompare x y = None <-> x = S754_nan \/ y = S754_nan.
Proof.
  destruct x as [sx|sx| |sx mx ex], y as [sy|sy| |sy my ey]; cbn [SFcompare];
    split; intro H; try discriminate; try (destruct H; discriminate);
    auto.
Qed.

Lemma is_nan_spec (a : float) : is_nan a = true <-> Prim2SF a = S754_nan.
Proof.
  unfold is_nan. rewrite eqb_spec. unfold SFeqb.
  destruct (Prim2SF a) as [s|s| |s m e] eqn:E; cbn [negb];
    try (rewrite SFcompare_refl by discriminate; split; discriminate).
  split; reflexivity.
Qed.

Lemma is_nan_false (a : float) : is_nan a = false <-> Prim2SF a <> S754_nan.
Proof.
  rewrite <- is_nan_spec. destruct (is_nan a); split; congruence.
Qed.

(** The five comparisons of two [double]s, read off one [SFcompare]. *)
Lemma float_compare_cases (a b : float) :
  let c := SFcompare (Prim2SF a) (Prim2SF b) in
  (a <? b)%float = match c with Some Lt => true | _ => false end /\
  (a =? b)%float = match c with Some Eq => true | _ => false end /\
  (b <? a)%float = match c with Some Gt => true | _ => false end /\
  (a <=? b)%float = match c with Some (Lt | Eq) => true | _ => false end /\
  (b <=? a)%float = match c with Some (Gt | Eq) => true | _ => false end /\
  (c = None <-> is_nan a || is_nan b = true).
Proof.
  intro c. rewrite !ltb_spec, !leb_spec, eqb_spec.
  unfold SFltb, SFleb, SFeqb.
  rewrite (SFcompare_antisym (Prim2SF a) (Prim2SF b)). fold c.
  repeat split; try (destruct c as [[| |]|]; reflexivity).
  - intro H. apply SFcompare_None in H. apply orb_true_iff.
    rewrite !is_nan_spec. exact H.
  - intro H. apply SFcompare_None. apply orb_true_iff in H.
    rewrite !is_nan_spec in H. exact H.
Qed.

Lemma abs_not_negative (a : float) : (abs a <? 0)%float = false.
Proof.
  rewrite ltb_spec, abs_spec. change (Prim2SF 0) with (S754_zero false).
  now destruct (Prim2SF a) as [s|s| |s m e].
Qed.

Lemma abs_idempotent (a : float) : abs (abs a) = abs a.
Proof.
  apply Prim2SF_inj. rewrite !abs_spec. now destruct (Prim2SF a).
Qed.

Lemma abs_opp (a : float) : abs (- a) = abs a.
Proof.
  apply Prim2SF_inj. rewrite !abs_spec, opp_spec. now destruct (Prim2SF a).
Qed.

Lemma sqrt_negative (a : float) : (a <? 0)%float = true -> sqrt a = nan.
Proof.
  rewrite ltb_spec. change (Prim2SF 0) with (S754_zero false).
  intro H. apply Prim2SF_inj. rewrite sqrt_spec.
  change (Prim2SF nan) with S754_nan.
  destruct (Prim2SF a) as [s|[|]| |[|] m e]; try discriminate; reflexivity.
Qed.

Lemma sqrt_nan : sqrt nan = nan.
Proof. reflexivity. Qed.

Lemma nan_add_l (y : float) : (nan + y)%float = nan.
Proof.
  apply Prim2SF_inj. rewrite add_spec.
  change (Prim2SF nan) with S754_nan. reflexivity.
Qed.

Lemma nan_add_r (y : float) : (y + nan)%float = nan.
Proof. rewrite float_add_comm. apply nan_add_l. Qed.

(** [x + 0] is [x], except that [-0 + 0] is [+0]. *)
Lemma add_zero_r (a : float) :
  Prim2SF a <> S754_zero true -> (a + 0)%float = a.
Proof.
  intro H. apply Prim2SF_inj. rewrite add_spec.
  change (Prim2SF 0) with (S754_zero false).
  destruct (Prim2SF a) as [[|]|s| |s m e]; try reflexivity. contradiction.
Qed.

Lemma add_zero_r_eqb (a : float) :
  is_nan a = false -> (a + 0 =? a)%float = true.
Proof.
  intro H. apply is_nan_false in H.
  rewrite eqb_spec, add_spec. change (Prim2SF 0) with (S754_zero false).
  unfold SFeqb.
  destruct (Prim2SF a) as [[|]|s| |s m e] eqn:E; try reflexivity;
    try contradiction; unfold SF64add, SFadd;
    rewrite SFcompare_refl by discriminate; reflexivity.
Qed.

(** ** binary64: multiplying, then dividing *)



(** ** Further properties of the dimension algebra *)

Lemma ratio_add_comm a b : ratio_add a b = ratio_add b a.
Proof.
  unfold ratio_add. f_equal. f_equal; ring.
Qed.

Lemma QMultiplication_comm Q1 Q2 : QMultiplication Q1 Q2 = QMultiplication Q2 Q1.
Proof.
  apply dims_ext. intro s. rewrite !exponent_QMultiplication.
  apply ratio_add_comm.
Qed.

Lemma wf_ratio_add a b : wf a -> wf b -> wf (ratio_add a b).
Proof.
  intros Ha Hb. apply wf_type. unfold wf; simpl.
  pose proof (den_pos a Ha). pose proof (den_pos b Hb). nia.
Qed.

Lemma wf_ratio_subtract a b : wf a -> wf b -> wf (ratio_subtract a b).
Proof.
  intros Ha Hb. apply wf_type. unfold wf; simpl.
  pose proof (den_pos a Ha). pose proof (den_pos b Hb). nia.
Qed.

Lemma reduced_ratio_add a b : wf a -> wf b -> reduced (ratio_add a b) = true.
Proof.
  intros Ha Hb. apply type_reduced. unfold wf; simpl.
  pose proof (den_pos a Ha). pose proof (den_pos b Hb). nia.
Qed.

Lemma reduced_ratio_subtract a b :
  wf a -> wf b -> reduced (ratio_subtract a b) = true.
Proof.
  intros Ha Hb. apply type_reduced. unfold wf; simpl.
  pose proof (den_pos a Ha). pose proof (den_pos b Hb). nia.
Qed.

Lemma reduced_ratio_multiply a b :
  wf a -> wf b -> reduced (ratio_multiply a b) = true.
Proof.
  intros Ha Hb. apply type_reduced. unfold wf; simpl.
  pose proof (den_pos a Ha). pose proof (den_pos b Hb). nia.
Qed.

Lemma reduced_ratio_divide a b :
  wf a -> wf b -> N b <> 0 -> reduced (ratio_divide a b) = true.
Proof.
  intros Ha Hb Hn. apply type_reduced. unfold wf; simpl.
  pose proof (den_pos a Ha). pose proof (num_neq0 b Hb Hn). nia.
Qed.

Lemma reduced_dims_unique a b :
  reduced_dims a = true -> reduced_dims b = true ->
  (forall s, (to_Q (exponent a s) == to_Q (exponent b s))%Q) -> a = b.
Proof.
  intros Ha Hb H. apply dims_ext. intro s.
  apply reduced_unique; [ | | apply H ]; now apply reduced_dims_spec.
Qed.

Lemma wf_dims_QMultiplication A B :
  wf_dims A -> wf_dims B -> wf_dims (QMultiplication A B).
Proof.
  intros HA HB s. rewrite exponent_QMultiplication. now apply wf_ratio_add.
Qed.

Lemma wf_dims_QDivision A B :
  wf_dims A -> wf_dims B -> wf_dims (QDivision A B).
Proof.
  intros HA HB s. rewrite exponent_QDivision. now apply wf_ratio_subtract.
Qed.

Lemma wf_dims_catalogue m l t i a o j n : wf_dims (NEW_QUANTITY m l t i a o j n).
Proof. intro s; destruct s; apply wf_of_int. Qed.

(** X1.  [pow<R>] multiplies every exponent by [R] and [root<R>] divides it by
    [R], as rationals; the values are [std::pow(v, R)] and
    [std::pow(v, 1.0 / R)]. *)
Theorem pow_root_dimensions (M : cmath) (R : Z) Q (q : Quantity Q) :
  wf_dims Q -> R <> 0 ->
  (forall s, to_Q (exponent (dims_of (units.pow R q)) s)
             == to_Q (exponent Q s) * inject_Z R)%Q /\
  val (units.pow R q) = std_pow (val q) (double_of_int R) /\
  (forall s, to_Q (exponent (dims_of (units.root R q)) s)
             == to_Q (exponent Q s) / inject_Z R)%Q /\
  val (units.root R q) = std_pow (val q) (1 / double_of_int R)%float.
Proof.
  intros Hwf HR. unfold dims_of. repeat split.
  - intro s. rewrite exponent_QPower.
    rewrite to_Q_ratio_multiply by (apply Hwf || apply wf_of_int).
    now rewrite to_Q_of_int.
  - intro s. rewrite exponent_QRoot.
    rewrite to_Q_ratio_divide by (apply Hwf || apply wf_of_int || exact HR).
    now rewrite to_Q_of_int.
Qed.

Lemma pow_root_dimensions_witness :
  let M := squares_only in
  let q := mkQuantity Area 9 in
  (forall s, to_Q (exponent (dims_of (units.pow 2 q)) s)
             == to_Q (exponent Area s) * inject_Z 2)%Q /\
  val (units.pow 2 q) = std_pow (val q) (double_of_int 2) /\
  (forall s, to_Q (exponent (dims_of (units.root 2 q)) s)
             == to_Q (exponent Area s) / inject_Z 2)%Q /\
  val (units.root 2 q) = std_pow (val q) (1 / double_of_int 2)%float.
Proof.
  apply (pow_root_dimensions squares_only 2 Area (mkQuantity Area 9)).
  - apply wf_dims_catalogue.
  - discriminate.
Defined.

(** X2.  Whatever the exponents of the operands, the exponents of a derived
    dimension vector are in lowest terms with a positive denominator. *)
Theorem derived_dims_reduced Q1 Q2 f :
  wf_dims Q1 -> wf_dims Q2 -> wf f -> N f <> 0 ->
  reduced_dims (QMultiplication Q1 Q2) = true /\
  reduced_dims (QDivision Q1 Q2) = true /\
  reduced_dims (QPower Q1 f) = true /\
  reduced_dims (QRoot Q1 f) = true.
Proof.
  intros H1 H2 Hf Hn. repeat split; apply reduced_dims_spec; intro s.
  - rewrite exponent_QMultiplication. now apply reduced_ratio_add.
  - rewrite exponent_QDivision. now apply reduced_ratio_subtract.
  - rewrite exponent_QPower. now apply reduced_ratio_multiply.
  - rewrite exponent_QRoot. now apply reduced_ratio_divide.
Qed.

Lemma derived_dims_reduced_witness :
  let unreduced := mkDims (mk 2 4) (mk 3 (-6)) (mk 0 5) (mk 1 1)
                          (mk 1 1) (mk 1 1) (mk 1 1) (mk 1 1) in
  reduced_dims (QMultiplication unreduced Length) = true /\
  reduced_dims (QDivision unreduced Length) = true /\
  reduced_dims (QPower unreduced (mk 6 4)) = true /\
  reduced_dims (QRoot unreduced (mk 6 4)) = true.
Proof.
  apply (derived_dims_reduced
           (mkDims (mk 2 4) (mk 3 (-6)) (mk 0 5) (mk 1 1)
                   (mk 1 1) (mk 1 1) (mk 1 1) (mk 1 1)) Length (mk 6 4)).
  - intro s; destruct s; unfold wf; simpl; lia.
  - apply wf_dims_catalogue.
  - unfold wf; simpl; lia.
  - simpl; lia.
Defined.

(** X3.  Two derived dimension vectors that agree as rationals are one and the
    same type. *)
Theorem derived_dims_same_rationals_same_type A B C D' :
  wf_dims A -> wf_dims B -> wf_dims C -> wf_dims D' ->
  (forall s, to_Q (exponent (QMultiplication A B) s)
             == to_Q (exponent (QDivision C D') s))%Q ->
  QMultiplication A B = QDivision C D'.
Proof.
  intros HA HB HC HD H. apply reduced_dims_unique; [ | | exact H ];
    apply reduced_dims_spec; intro s.
  - rewrite exponent_QMultiplication. now apply reduced_ratio_add.
  - rewrite exponent_QDivision. now apply reduced_ratio_subtract.
Qed.

Lemma derived_dims_same_rationals_same_type_witness :
  QMultiplication Force Length = QDivision (QMultiplication Force Area) Length.
Proof.
  apply (derived_dims_same_rationals_same_type
           Force Length (QMultiplication Force Area) Length);
    try apply wf_dims_catalogue.
  intro s; destruct s; reflexivity.
Defined.

(** X4.  [a * b] and [b * a] are of the same type and have the same value. *)
Theorem op_mul_commutative Q1 Q2 (a : Quantity Q1) (b : Quantity Q2) :
  dims_of (op_mul a b) = dims_of (op_mul b a) /\
  val (op_mul a b) = val (op_mul b a).
Proof.
  split.
  - apply QMultiplication_comm.
  - apply float_mul_comm.
Qed.

Lemma ratio_subtract_self r : wf r -> ratio_subtract r r = of_int 0.
Proof.
  intro H. unfold ratio_subtract.
  replace (num r * den r - num r * den r) with 0 by ring.
  pose proof (den_pos r H) as Hd.
  apply reduced_unique.
  - apply type_reduced. unfold wf; simpl; nia.
  - reflexivity.
  - rewrite to_Q_mk by nia. rewrite to_Q_of_int. unfold Qdiv.
    now rewrite Qmult_0_l.
Qed.

Lemma ratio_add_zero_r r : reduced r = true -> ratio_add r (of_int 0) = r.
Proof.
  intro H. pose proof (reduced_wf r H) as Hwf.
  apply reduced_unique; [ | exact H | ].
  - apply reduced_ratio_add; [exact Hwf | apply wf_of_int].
  - rewrite to_Q_ratio_add by (exact Hwf || apply wf_of_int).
    rewrite to_Q_of_int. ring.
Qed.

Lemma ratio_subtract_zero_r r : reduced r = true -> ratio_subtract r (of_int 0) = r.
Proof.
  intro H. pose proof (reduced_wf r H) as Hwf.
  apply reduced_unique; [ | exact H | ].
  - apply reduced_ratio_subtract; [exact Hwf | apply wf_of_int].
  - rewrite to_Q_ratio_subtract by (exact Hwf || apply wf_of_int).
    rewrite to_Q_of_int. ring.
Qed.

(** X5.  [Number] is the unit of the dimension algebra: a quantity divided by one
    of its own type is a [Number]; multiplying or dividing by a [Number]
    changes no type; and [Number] is the only reduced dimension vector a
    bare [double] may be assigned to. *)
Theorem Number_is_unit T :
  reduced_dims T = true ->
  QDivision T T = Number /\
  QMultiplication T Number = T /\
  QMultiplication Number T = T /\
  QDivision T Number = T /\
  (is_number T = true -> T = Number).
Proof.
  intro HT. pose proof (reduced_dims_wf T HT) as Hwf.
  pose proof (proj1 (reduced_dims_spec T) HT) as Hr.
  assert (E1 : QMultiplication T Number = T).
  { apply dims_ext. intro s. rewrite exponent_QMultiplication.
    replace (exponent Number s) with (of_int 0) by (now destruct s).
    apply ratio_add_zero_r, Hr. }
  repeat split.
  - apply dims_ext. intro s. rewrite exponent_QDivision.
    replace (exponent Number s) with (of_int 0) by (now destruct s).
    apply ratio_subtract_self, Hwf.
  - exact E1.
  - rewrite QMultiplication_comm. exact E1.
  - apply dims_ext. intro s. rewrite exponent_QDivision.
    replace (exponent Number s) with (of_int 0) by (now destruct s).
    apply ratio_subtract_zero_r, Hr.
  - intro Hn. pose proof (proj1 (is_number_spec T Hwf) Hn) as Hz.
    apply reduced_dims_unique; [exact HT | reflexivity | ].
    intro s. rewrite (Hz s). now destruct s.
Qed.

Lemma Number_is_unit_witness :
  QDivision Force Force = Number /\
  QMultiplication Force Number = Force /\
  QMultiplication Number Force = Force /\
  QDivision Force Number = Force /\
  (is_number Force = true -> Force = Number).
Proof. apply (Number_is_unit Force). reflexivity. Defined.

(** X6.  On reduced dimension vectors the round trip of C1 gives back the very
    type: [(a / b) * b] and [(a * b) / b] are of [a]'s type. *)
Theorem mul_div_same_type A B :
  reduced_dims A = true -> wf_dims B ->
  QMultiplication (QDivision A B) B = A /\
  QDivision (QMultiplication A B) B = A.
Proof.
  intros HA HB. pose proof (reduced_dims_wf A HA) as Hwf.
  split; apply reduced_dims_unique; try exact HA.
  - apply reduced_dims_spec. intro s. rewrite exponent_QMultiplication.
    apply reduced_ratio_add; [ | apply HB ].
    rewrite exponent_QDivision. now apply wf_ratio_subtract.
  - intro s. rewrite exponent_QMultiplication, exponent_QDivision.
    rewrite to_Q_ratio_add, to_Q_ratio_subtract; auto.
    + ring.
    + now apply wf_ratio_subtract.
  - apply reduced_dims_spec. intro s. rewrite exponent_QDivision.
    apply reduced_ratio_subtract; [ | apply HB ].
    rewrite exponent_QMultiplication. now apply wf_ratio_add.
  - intro s. rewrite exponent_QDivision, exponent_QMultiplication.
    rewrite to_Q_ratio_subtract, to_Q_ratio_add; auto.
    + ring.
    + now apply wf_ratio_add.
Qed.

Lemma mul_div_same_type_witness :
  QMultiplication (QDivision Force Area) Area = Force /\
  QDivision (QMultiplication Force Area) Area = Force.
Proof.
  apply (mul_div_same_type Force Area).
  - reflexivity.
  - apply wf_dims_catalogue.
Defined.

(** X7.  The derived units of the catalogue are initialised with expressions of
    the declared type: a length times a length is an [Area], a length over a
    time a [LinearVelocity], and so on; a length is no [Area]. *)
Theorem catalogue_initialisers_accepted (l : Quantity Length) (t : Quantity Time) :
  NEW_QUANTITY_VALUE Area (op_mul l l)
  = Some (mkQuantity Area (val l * val l)) /\
  NEW_QUANTITY_VALUE LinearVelocity (op_div l t)
  = Some (mkQuantity LinearVelocity (val l / val t)) /\
  NEW_QUANTITY_VALUE LinearAcceleration (op_div (op_div l t) t)
  = Some (mkQuantity LinearAcceleration (val l / val t / val t)) /\
  NEW_QUANTITY_VALUE LinearJerk (op_div l (op_mul (op_mul t t) t))
  = Some (mkQuantity LinearJerk (val l / (val t * val t * val t))) /\
  NEW_QUANTITY_VALUE Length (op_scale l 12)
  = Some (mkQuantity Length (val l * 12)) /\
  NEW_QUANTITY_VALUE Area l = None /\
  NEW_QUANTITY_VALUE LinearVelocity (op_mul l t) = None.
Proof. repeat split. Qed.

(** ** binary64: the relative error of one multiplication, one division *)














Local Open Scope float_scope.

(** ** Round trips of the value *)







(** ** Comparisons *)

(** X11.  When either value is NaN every comparison but [!=] is false; otherwise
    exactly one of [<], [==], [>] holds, [<=] is [<] or [==] and [>=] is [>]
    or [==]. *)
Theorem comparison_trichotomy Q (a b : Quantity Q) :
  (is_nan (val a) || is_nan (val b) = true ->
   op_lt a b = false /\ op_eq a b = false /\ op_gt a b = false /\
   op_le a b = false /\ op_ge a b = false /\ op_ne a b = true) /\
  (is_nan (val a) || is_nan (val b) = false ->
   (op_lt a b, op_eq a b, op_gt a b) = (true, false, false) \/
   (op_lt a b, op_eq a b, op_gt a b) = (false, true, false) \/
   (op_lt a b, op_eq a b, op_gt a b) = (false, false, true)) /\
  op_le a b = op_lt a b || op_eq a b /\
  op_ge a b = op_gt a b || op_eq a b.
Proof.
  unfold op_lt, op_eq, op_gt, op_le, op_ge, op_ne.
  destruct (float_compare_cases (val a) (val b))
    as (E1 & E2 & E3 & E4 & E5 & E6).
  rewrite E1, E2, E3, E4, E5.
  destruct E6 as [E6 E7].
  destruct (SFcompare (Prim2SF (val a)) (Prim2SF (val b))) as [[| |]|];
    (split; [ | split; [ | split; reflexivity ] ]).
  1, 3, 5: intro Hn; specialize (E7 Hn); discriminate E7.
  1, 2, 3: intros _; auto.
  - intros _. repeat split.
  - intro Hn. rewrite (E6 eq_refl) in Hn. discriminate Hn.
Qed.

(** X12.  [max] and [min] return one of their arguments, and when neither value
    is NaN, [max] is no less and [min] no greater than both. *)
Theorem max_min_bounds Q (a b : Quantity Q) :
  is_nan (val a) = false -> is_nan (val b) = false ->
  (units.max a b = a \/ units.max a b = b) /\
  (units.min a b = a \/ units.min a b = b) /\
  op_le a (units.max a b) = true /\ op_le b (units.max a b) = true /\
  op_le (units.min a b) a = true /\ op_le (units.min a b) b = true.
Proof.
  intros Ha Hb.
  assert (Raa : op_le a a = true).
  { unfold op_le. destruct (float_compare_cases (val a) (val a)) as (_ & _ & _ & E & _).
    rewrite E, SFcompare_refl; [reflexivity | now apply is_nan_false]. }
  assert (Rbb : op_le b b = true).
  { unfold op_le. destruct (float_compare_cases (val b) (val b)) as (_ & _ & _ & E & _).
    rewrite E, SFcompare_refl; [reflexivity | now apply is_nan_false]. }
  assert (Hn : is_nan (val a) || is_nan (val b) = false) by (rewrite Ha, Hb; reflexivity).
  destruct (float_compare_cases (val a) (val b))
    as (E1 & E2 & E3 & E4 & E5 & E6).
  unfold units.max, units.min, op_gt, op_lt.
  rewrite E1, E3.
  destruct (SFcompare (Prim2SF (val a)) (Prim2SF (val b))) as [[| |]|] eqn:Ec;
    unfold op_le in *; rewrite ?E4, ?E5, ?Raa, ?Rbb; repeat split; auto.
  all: destruct E6 as [E6 _]; specialize (E6 eq_refl); congruence.
Qed.

Lemma max_min_bounds_witness :
  let a := mkQuantity Length 3 in
  let b := mkQuantity Length (-0) in
  (units.max a b = a \/ units.max a b = b) /\
  (units.min a b = a \/ units.min a b = b) /\
  op_le a (units.max a b) = true /\ op_le b (units.max a b) = true /\
  op_le (units.min a b) a = true /\ op_le (units.min a b) b = true.
Proof.
  apply (max_min_bounds Length (mkQuantity Length 3) (mkQuantity Length (-0)));
    reflexivity.
Defined.

Lemma leb_refl (a : float) : is_nan a = false -> (a <=? a) = true.
Proof.
  intro H. destruct (float_compare_cases a a) as (_ & _ & _ & E & _).
  rewrite E, SFcompare_refl; [reflexivity | now apply is_nan_false].
Qed.

Lemma leb_not_nan (a b : float) :
  (a <=? b) = true -> is_nan a = false /\ is_nan b = false.
Proof.
  intro H. destruct (float_compare_cases a b) as (_ & _ & _ & E & _ & E6).
  rewrite E in H.
  destruct (SFcompare (Prim2SF a) (Prim2SF b)) as [c|] eqn:Ec; [|discriminate].
  destruct (is_nan a) eqn:Na, (is_nan b) eqn:Nb; auto;
    destruct E6 as [_ E7]; specialize (E7 eq_refl); discriminate.
Qed.

(** X13.  When the value is not NaN and [lo <= hi], the clamped quantity lies
    between [lo] and [hi] and is the argument itself or one of the bounds. *)
Theorem clamp_within Q (q lo hi : Quantity Q) :
  is_nan (val q) = false -> op_le lo hi = true ->
  op_le lo (units.clamp q lo hi) = true /\
  op_le (units.clamp q lo hi) hi = true /\
  (units.clamp q lo hi = q \/ units.clamp q lo hi = lo \/ units.clamp q lo hi = hi) /\
  (op_le lo q = true -> op_le q hi = true -> units.clamp q lo hi = q).
Proof.
  intros Hq Hle. unfold op_le in *.
  destruct (leb_not_nan _ _ Hle) as [Nlo Nhi].
  destruct q as [v], lo as [l], hi as [h]. unfold units.clamp, val, value in *.
  destruct (float_compare_cases v l) as (A1 & _ & _ & _ & A5 & A6).
  destruct (float_compare_cases h v) as (B1 & _ & _ & _ & B5 & B6).
  rewrite A1, B1.
  assert (Cvl : SFcompare (Prim2SF v) (Prim2SF l) <> None).
  { intro E. apply A6 in E. rewrite Hq, Nlo in E. discriminate. }
  assert (Chv : SFcompare (Prim2SF h) (Prim2SF v) <> None).
  { intro E. apply B6 in E. rewrite Hq, Nhi in E. discriminate. }
  destruct (SFcompare (Prim2SF v) (Prim2SF l)) as [[| |]|];
    destruct (SFcompare (Prim2SF h) (Prim2SF v)) as [[| |]|];
    try contradiction; rewrite ?Hle, ?leb_refl by assumption;
    repeat split; auto; try congruence.
Qed.

Lemma clamp_within_witness :
  let q := mkQuantity Length 7 in
  let lo := mkQuantity Length (-1) in
  let hi := mkQuantity Length 5 in
  op_le lo (units.clamp q lo hi) = true /\
  op_le (units.clamp q lo hi) hi = true /\
  (units.clamp q lo hi = q \/ units.clamp q lo hi = lo \/ units.clamp q lo hi = hi) /\
  (op_le lo q = true -> op_le q hi = true -> units.clamp q lo hi = q).
Proof.
  apply (clamp_within Length (mkQuantity Length 7) (mkQuantity Length (-1))
           (mkQuantity Length 5)); reflexivity.
Defined.

(** X14.  The absolute value is never below zero, its sign is always 1, and
    taking it twice changes nothing. *)
Theorem abs_sgn Q (q : Quantity Q) :
  units.sgn (units.abs q) = 1%Z /\
  op_lt (units.abs q) (Quantity_default Q) = false /\
  units.abs (units.abs q) = units.abs q.
Proof.
  unfold units.sgn, units.abs, op_lt, Quantity_default, val, value.
  rewrite abs_not_negative, abs_idempotent. auto.
Qed.

(** ** Sums *)

(** X15.  [a + b] and [b + a] have the same value, for quantities and, component
    by component, for vectors.  All NaNs are one value here: when a sum is NaN
    the other one is NaN as well, and nothing is said of its sign and
    payload. *)
Theorem op_add_commutative Q (a b : Quantity Q) (v w : Vector3D Q) :
  op_add a b = op_add b a /\ Vector3D_add v w = Vector3D_add w v.
Proof.
  unfold Vector3D_add, op_add. split.
  - now rewrite float_add_comm.
  - now rewrite (float_add_comm (val (x v))), (float_add_comm (val (y v))),
      (float_add_comm (val (z v))).
Qed.

(** X16.  Adding the zero vector to a vector without NaN gives a vector whose
    components compare equal to the original ones, and the very same vector
    when no component is [-0]. *)
Theorem Vector3D_add_zero T (v : Vector3D T) :
  is_nan (val (x v)) = false -> is_nan (val (y v)) = false ->
  is_nan (val (z v)) = false ->
  let w := Vector3D_add v (Vector3D_default T) in
  op_eq (x w) (x v) = true /\ op_eq (y w) (y v) = true /\
  op_eq (z w) (z v) = true /\
  (Prim2SF (val (x v)) <> S754_zero true ->
   Prim2SF (val (y v)) <> S754_zero true ->
   Prim2SF (val (z v)) <> S754_zero true -> w = v).
Proof.
  intros Hx Hy Hz w. subst w.
  destruct v as [[a] [b] [c]].
  unfold Vector3D_add, Vector3D_default, op_add, op_eq, val, value in *.
  cbn [x y z value] in *.
  rewrite !add_zero_r_eqb by assumption. repeat split.
  intros Za Zb Zc. now rewrite !add_zero_r by assumption.
Qed.

Lemma Vector3D_add_zero_witness :
  let v := mkVector3D (mkQuantity Length 1) (mkQuantity Length (-0))
                      (mkQuantity Length infinity) in
  let w := Vector3D_add v (Vector3D_default Length) in
  op_eq (x w) (x v) = true /\ op_eq (y w) (y v) = true /\
  op_eq (z w) (z v) = true /\
  (Prim2SF (val (x v)) <> S754_zero true ->
   Prim2SF (val (y v)) <> S754_zero true ->
   Prim2SF (val (z v)) <> S754_zero true -> w = v).
Proof.
  apply (Vector3D_add_zero Length
           (mkVector3D (mkQuantity Length 1) (mkQuantity Length (-0))
                       (mkQuantity Length infinity))); reflexivity.
Defined.

(** X17.  [v -= w] leaves every component of [v] as it was, where [v += w] stores
    the sum [v + w]. *)
Theorem Vector3D_sub_assign_unchanged T (v w : Vector3D T) :
  Vector3D_sub_assign v w = v /\
  Vector3D_add_assign v w = Vector3D_add v w.
Proof. destruct v as [[a] [b] [c]]. split; reflexivity. Qed.

(** ** Magnitude and products *)

(** X18.  The magnitude of a vector with a negative component is NaN. *)
Theorem magnitude_negative_component T (v : Vector3D T) :
  reduced_dims T = true ->
  op_lt (x v) (Quantity_default T) = true \/
  op_lt (y v) (Quantity_default T) = true \/
  op_lt (z v) (Quantity_default T) = true ->
  magnitude v = Some (mkQuantity T nan).
Proof.
  intros HT H. rewrite (magnitude_value T v HT). do 2 f_equal.
  unfold op_lt, Quantity_default, val in H. cbn [value] in H. unfold val.
  destruct H as [H | [H | H]]; rewrite (sqrt_negative _ H).
  - now rewrite !nan_add_l.
  - now rewrite nan_add_r, nan_add_l.
  - now rewrite nan_add_r.
Qed.

Lemma magnitude_negative_component_witness :
  magnitude (mkVector3D (mkQuantity Force 3) (mkQuantity Force (-4))
                        (mkQuantity Force 0))
  = Some (mkQuantity Force nan).
Proof.
  apply (magnitude_negative_component Force).
  - reflexivity.
  - right; left; reflexivity.
Defined.

(** X19.  [a.dot(b)] and [b.dot(a)] are of the same type and have the same
    value. *)
Theorem dot_symmetric T Q (a : Vector3D T) (b : Vector3D Q) :
  dims_of (dot a b) = dims_of (dot b a) /\ val (dot a b) = val (dot b a).
Proof.
  split.
  - apply QMultiplication_comm.
  - unfold dot, op_add, op_mul, val. cbn [value].
    now rewrite (float_mul_comm (value (x a))), (float_mul_comm (value (y a))),
      (float_mul_comm (value (z a))).
Qed.

Local Close Scope float_scope.

(** ** Exact results *)

Lemma is_zero_spec (a : float) :
  is_zero a = false -> forall s, Prim2SF a <> S754_zero s.
Proof.
  unfold is_zero. rewrite eqb_spec. change (Prim2SF zero) with (S754_zero false).
  intros H s E. rewrite E in H. discriminate.
Qed.

Lemma SFdiv_self s m e :
  SF64div (S754_finite s m e) (S754_finite s m e)
  = S754_finite false 4503599627370496 (-52).
Proof.
  unfold SF64div, SFdiv, SFdiv_core_binary.
  rewrite !Z.sub_diag.
  change (Z.min (fexp prec emax 0) 0) with (-53).
  change (0 - -53) with 53.
  cbv iota.
  rewrite Z.shiftl_mul_pow2 by lia.
  pose proof (Z_div_mod (Z.pos m * 2 ^ 53) (Z.pos m) ltac:(lia)) as H.
  destruct (Z.div_eucl (Z.pos m * 2 ^ 53) (Z.pos m)) as [q r].
  destruct H as [H1 H2].
  assert (Hq : q = 2 ^ 53) by nia.
  assert (Hr : r = 0) by nia.
  subst q r.
  replace (new_location (Z.pos m) 0) with loc_Exact
    by (unfold new_location, new_location_even, new_location_odd;
        now destruct (Z.even (Z.pos m))).
  rewrite xorb_nilpotent. reflexivity.
Qed.

Lemma float_div_self (a : float) :
  is_finite a = true -> is_zero a = false -> (a / a = 1)%float.
Proof.
  intros Hf Hz. apply Prim2SF_inj. rewrite div_spec.
  destruct (is_finite_spec a Hf) as [[s E] | (s & m & e & E)].
  - exfalso. exact (is_zero_spec a Hz s E).
  - rewrite E, SFdiv_self. reflexivity.
Qed.

Local Open Scope float_scope.

(** X21.  A finite nonzero quantity converted to itself as the unit is exactly 1:
    [to_x] of the unit [x] is 1 for every unit of the catalogue. *)
Theorem convert_self Q (q : Quantity Q) :
  is_finite (val q) = true -> is_zero (val q) = false ->
  convert q q = 1 /\ to_suffix q q = 1.
Proof.
  intros Hf Hz. unfold to_suffix, convert. split; now apply float_div_self.
Qed.

(** The mile, [ft * 5280] with the foot [in * 12] and the inch [cm * 2.54]. *)
Lemma convert_self_witness :
  let mi := mkQuantity Length (1 / 100 * 0x1.451eb851eb852p+1 * 12 * 5280) in
  convert mi mi = 1 /\ to_suffix mi mi = 1.
Proof.
  apply (convert_self Length
           (mkQuantity Length (1 / 100 * 0x1.451eb851eb852p+1 * 12 * 5280)));
    reflexivity.
Defined.
